(** * A verified model of the CloudPRNT job broker (src/Serve.js)

    The server keeps an in-memory queue of print jobs.  A kiosk submits
    orders ([POST /api/order]); a Star printer polls for work
    ([POST /cloudprnt]), fetches the job text ([GET /cloudprnt]) and
    confirms the outcome ([DELETE /cloudprnt]).

    The embedding follows the source handler by handler.  The two module
    level variables [nextJobId] and [jobs] form the store; every handler is
    a computation in a small state monad over that store and returns the
    response it sends.  Handlers are synchronous JavaScript functions, so
    the event loop runs each of them to completion before the next one
    starts: a run of the server is a sequence of handler executions. *)

From Stdlib Require Import ZArith QArith Ascii Decimal DecimalString DecimalZ.
From stdpp Require Import base list strings.

Local Open Scope string_scope.
Local Open Scope Z_scope.

(** ** JavaScript values

    The values the handlers can see in [req.body] and [req.query]: the
    result of [JSON.parse] (for a body) or of the query-string parser
    (strings, arrays, nested objects), and [undefined] for what is absent. *)

#[warnings="-register-all"]
Inductive jsval : Type :=
  | JUndefined
  | JNull
  | JBool (b : bool)
  | JNum (n : Q)
  | JStr (s : string)
  | JArr (items : list jsval)
  | JObj (props : list (string * jsval)).

(** [ToBoolean]: what [!v] and [v || w] test. *)
Definition truthy (v : jsval) : bool :=
  match v with
  | JUndefined | JNull => false
  | JBool b => b
  | JNum n => negb (Qeq_bool n 0)
  | JStr s => negb (String.eqb s "")
  | JArr _ | JObj _ => true
  end.

(** The [typeof] operator. *)
Definition typeof (v : jsval) : string :=
  match v with
  | JUndefined => "undefined"
  | JBool _ => "boolean"
  | JNum _ => "number"
  | JStr _ => "string"
  | JNull | JArr _ | JObj _ => "object"
  end.

(** [a || b]. *)
Definition js_or (a b : jsval) : jsval := if truthy a then a else b.

(** Own property lookup in a parsed object. *)
Fixpoint get_own (k : string) (props : list (string * jsval)) : jsval :=
  match props with
  | [] => JUndefined
  | (k', v) :: rest => if String.eqb k k' then v else get_own k rest
  end.

(** [v.k] for a value [v] that is neither [undefined] nor [null]: objects
    answer with their own property, and neither arrays nor primitives have
    a property called [text]. *)
Definition get_prop (k : string) (v : jsval) : jsval :=
  match v with
  | JObj props => get_own k props
  | _ => JUndefined
  end.

(** [s === v] where [s] is known to be a string. *)
Definition strict_eq_str (s : string) (v : jsval) : bool :=
  match v with
  | JStr t => String.eqb s t
  | _ => false
  end.

(** Template-literal conversion of an integral number: its decimal digits,
    with a leading minus sign when negative. *)
Definition show_int (n : Z) : string := NilZero.string_of_int (Z.to_int n).

(** ** The job queue *)

Inductive job_status : Type := Pending | Printing | Done | Error.

Global Instance job_status_eq_dec : EqDecision job_status.
Proof. solve_decision. Defined.

Definition status_name (st : job_status) : string :=
  match st with
  | Pending => "pending"
  | Printing => "printing"
  | Done => "done"
  | Error => "error"
  end.

(** Each job: [{ id, token, content, status }]. *)
Record job : Type := Job {
  id : Z;
  token : string;
  content : string;
  status : job_status
}.

Definition with_status (st : job_status) (j : job) : job :=
  {| id := id j; token := token j; content := content j; status := st |}.

(** [let nextJobId = 1; const jobs = [];]

    The counter is a JavaScript number that only ever holds integers; it is
    modelled as an integer, which is exact as long as it stays below 2^53. *)
Record store : Type := Store {
  nextJobId : Z;
  jobs : list job
}.

Definition init : store := {| nextJobId := 1; jobs := [] |}.

(** ** Responses

    A handler answers either with [res.json] or with [res.send] of a
    string; [ctype] is the [Content-Type] the handler sets itself, if any. *)

Inductive response : Type :=
  | RespJson (code : Z) (body : jsval)
  | RespText (code : Z) (ctype : option string) (body : string).

(** ** The store monad *)

Definition M (A : Type) : Type := store → A * store.

Global Instance M_ret : MRet M := λ A x s, (x, s).
Global Instance M_bind : MBind M := λ A B f m s, let (x, s') := m s in f x s'.

(** [nextJobId++] *)
Definition next_id : M Z :=
  λ s, (nextJobId s, {| nextJobId := nextJobId s + 1; jobs := jobs s |}).

(** reading the [jobs] array *)
Definition get_jobs : M (list job) := λ s, (jobs s, s).

(** [jobs.push(j)] *)
Definition push_job (j : job) : M unit :=
  λ s, (tt, {| nextJobId := nextJobId s; jobs := jobs s ++ [j] |}).

(** [job.status = st], for the job object held at index [i] of [jobs]: the
    array stores references, so the assignment is seen through the array. *)
Definition set_status (i : nat) (st : job_status) : M unit :=
  λ s, (tt, {| nextJobId := nextJobId s; jobs := alter (with_status st) i (jobs s) |}).

(** ** The handlers *)

(** [makeToken(id)], with [now] the value [Date.now()] returns at the call. *)
Definition makeToken (id : Z) (now : Z) : string :=
  "job-" +:+ show_int id +:+ "-" +:+ show_int now.

(** The guard [!text || typeof text !== "string"] of the order handler;
    when it lets [text] through, [text] is a string. *)
Definition order_text (text : jsval) : option string :=
  if negb (truthy text) || negb (String.eqb (typeof text) "string") then None
  else match text with JStr t => Some t | _ => None end.

(** [const { text } = req.body || {};] *)
Definition body_text (body : jsval) : jsval :=
  get_prop "text" (js_or body (JObj [])).

(** [res.json({ ok: true, id, token })] *)
Definition order_accepted (id : Z) (token : string) : response :=
  RespJson 200 (JObj [("ok", JBool true);
                      ("id", JNum (inject_Z id));
                      ("token", JStr token)]).

Definition order_rejected : response :=
  RespJson 400 (JObj [("error", JStr "Missing 'text' field")]).

(** [app.post("/api/order", ...)] *)
Definition post_api_order (body : jsval) (now : Z) : M response :=
  match order_text (body_text body) with
  | None => mret order_rejected
  | Some t =>
      id ← next_id;
      let token := makeToken id now in
      _ ← push_job {| id := id; token := token; content := t; status := Pending |};
      mret (order_accepted id token)
  end.

Definition job_json (j : job) : jsval :=
  JObj [("id", JNum (inject_Z (id j)));
        ("token", JStr (token j));
        ("content", JStr (content j));
        ("status", JStr (status_name (status j)))].

(** [app.get("/api/debug/jobs", ...)] *)
Definition get_api_debug_jobs : M response :=
  js ← get_jobs;
  mret (RespJson 200 (JArr (job_json <$> js))).

Definition no_job_ready : response :=
  RespJson 200 (JObj [("jobReady", JNum (inject_Z 0));
                      ("mediaTypes", JArr [JStr "text/plain"])]).

Definition job_ready (tok : string) : response :=
  RespJson 200 (JObj [("jobReady", JNum (inject_Z 1));
                      ("jobToken", JStr tok);
                      ("mediaTypes", JArr [JStr "text/plain"]);
                      ("pollInterval", JNum (inject_Z 5))]).

(** [app.post("/cloudprnt", ...)]: the printer status in the body is only
    logged. *)
Definition post_cloudprnt (body : jsval) : M response :=
  js ← get_jobs;
  match list_find (λ j, status j = Pending) js with
  | None => mret no_job_ready
  | Some (i, j) =>
      _ ← set_status i Printing;
      mret (job_ready (token j))
  end.

Definition missing_job_token : response := RespText 400 None "Missing job_token".
Definition job_not_found : response := RespText 404 None "Job not found".

(** [jobs.find(j => j.token === token)] *)
Definition find_by_token (tok : jsval) (js : list job) : option (nat * job) :=
  list_find (λ j, Is_true (strict_eq_str (token j) tok)) js.

(** [app.get("/cloudprnt", ...)] *)
Definition get_cloudprnt (job_token : jsval) : M response :=
  if negb (truthy job_token) then mret missing_job_token
  else
    js ← get_jobs;
    match find_by_token job_token js with
    | None => mret job_not_found
    | Some (_, j) =>
        mret (RespText 200 (Some "text/plain; charset=utf-8") (content j))
    end.

(** [app.delete("/cloudprnt", ...)] *)
Definition delete_cloudprnt (job_token status : jsval) : M response :=
  if negb (truthy job_token) then mret missing_job_token
  else
    js ← get_jobs;
    match find_by_token job_token js with
    | None => mret job_not_found
    | Some (i, _) =>
        _ ← (if strict_eq_str "0" status then set_status i Done
             else set_status i Error);
        mret (RespText 200 None "OK")
    end.

(** ** Requests and runs of the server *)

Inductive request : Type :=
  | PostApiOrder (body : jsval) (now : Z)
  | GetApiDebugJobs
  | PostCloudprnt (body : jsval)
  | GetCloudprnt (job_token : jsval)
  | DeleteCloudprnt (job_token status : jsval).

Definition handle (r : request) : M response :=
  match r with
  | PostApiOrder body now => post_api_order body now
  | GetApiDebugJobs => get_api_debug_jobs
  | PostCloudprnt body => post_cloudprnt body
  | GetCloudprnt tok => get_cloudprnt tok
  | DeleteCloudprnt tok st => delete_cloudprnt tok st
  end.

(** The requests are served one after the other. *)
Fixpoint serve (rs : list request) : M (list response) :=
  match rs with
  | [] => mret []
  | r :: rest =>
      a ← handle r;
      as' ← serve rest;
      mret (a :: as')
  end.

(** The store after serving [rs] from [s], and the responses sent. *)
Definition after (rs : list request) (s : store) : store := (serve rs s).2.
Definition replies (rs : list request) (s : store) : list response := (serve rs s).1.

(** The status of the job at index [i]. *)
Definition status_at (i : nat) (s : store) : option job_status :=
  status <$> jobs s !! i.

(** A kiosk order [{ text: t }]. *)
Definition order (t : string) : jsval := JObj [("text", JStr t)].

(** ** Predicates used in the statements *)

Definition is_terminal (st : job_status) : Prop := st = Done ∨ st = Error.

(** The outcome [DELETE /cloudprnt] records for a [status] parameter. *)
Definition outcome (status : jsval) : job_status :=
  if strict_eq_str "0" status then Done else Error.

(** The store [s] with the status of the job at index [i] set to [st]. *)
Definition mark (i : nat) (st : job_status) (s : store) : store :=
  {| nextJobId := nextJobId s; jobs := alter (with_status st) i (jobs s) |}.

(** The store [s] with one more job at the end of the queue. *)
Definition enqueue (j : job) (s : store) : store :=
  {| nextJobId := nextJobId s + 1; jobs := jobs s ++ [j] |}.

(** What every store reached from [init] satisfies: jobs are numbered
    1, 2, 3, ... in queue order, the counter is one past the last id, and
    every token was made by [makeToken] from the job's own id. *)
Definition store_ok (s : store) : Prop :=
  nextJobId s = Z.of_nat (length (jobs s)) + 1 ∧
  ∀ i j, jobs s !! i = Some j →
    id j = Z.of_nat i + 1 ∧ ∃ now, token j = makeToken (id j) now.

Definition is_digit (c : ascii) : bool :=
  match c with
  | "0" | "1" | "2" | "3" | "4" | "5" | "6" | "7" | "8" | "9" => true
  | _ => false
  end%char.

Fixpoint all_digits (s : string) : bool :=
  match s with
  | EmptyString => true
  | String c r => is_digit c && all_digits r
  end.

Definition is_poll (r : request) : Prop :=
  match r with PostCloudprnt _ => True | _ => False end.

(** The ways a single request can change the store: not at all, by a
    poll claiming a pending job, by an acknowledgment recording an outcome,
    or by an order joining the queue. *)
Inductive transition (s : store) : store → Prop :=
  | tr_same : transition s s
  | tr_claim i :
      status_at i s = Some Pending → transition s (mark i Printing s)
  | tr_ack i st :
      is_terminal st → transition s (mark i st s)
  | tr_enqueue t now :
      transition s
        (enqueue {| id := nextJobId s; token := makeToken (nextJobId s) now;
                    content := t; status := Pending |} s).

(** ** The rest of the server *)

Definition ALLOWED_ORIGINS : list string :=
  ["https://brilliant-cascaron-a302b3.netlify.app";
   "http://localhost:4173";
   "http://localhost:5173";
   "http://localhost:3000"].

(** The [origin] function handed to [cors]: it always calls [cb] with a
    [null] error, and this is the verdict it passes along.  [origin] is the
    request's [Origin] header, [undefined] when there is none. *)
Definition cors_origin (origin : jsval) : bool :=
  if negb (truthy origin) then true
  else if existsb (λ a, strict_eq_str a origin) ALLOWED_ORIGINS then true
  else false.

(** ** Measures used in the statements *)

(** The requests that put a job in the queue. *)
Definition accepts (r : request) : bool :=
  match r with
  | PostApiOrder body _ =>
      match order_text (body_text body) with Some _ => true | None => false end
  | _ => false
  end.

(** How far a job is in its life. *)
Definition rank (st : job_status) : nat :=
  match st with
  | Pending => 0
  | Printing => 1
  | Done | Error => 2
  end.

(** The status a run leaves on the job carrying token [t] when it starts
    from status [st0] and the job is no longer pending: each acknowledgment
    whose [job_token] is [t] replaces it by its outcome, nothing else
    touches it. *)
Fixpoint last_outcome (t : string) (rs : list request) (st0 : job_status)
  : job_status :=
  match rs with
  | [] => st0
  | DeleteCloudprnt tok st :: rest =>
      if strict_eq_str t tok then last_outcome t rest (outcome st)
      else last_outcome t rest st0
  | _ :: rest => last_outcome t rest st0
  end.

(** The tokens of the pending jobs, oldest first. *)
Definition pending_tokens (s : store) : list string :=
  token <$> filter (λ j, status j = Pending) (jobs s).

(** What an order fixes of a job: everything but its status. *)
Definition identity (j : job) : Z * string * string :=
  (id j, token j, content j).

(** ** A complete protocol round *)

Example end_to_end :
  replies [PostApiOrder (order "Order #1") 1700000000000;
           PostCloudprnt (JObj []);
           GetCloudprnt (JStr "job-1-1700000000000");
           DeleteCloudprnt (JStr "job-1-1700000000000") (JStr "0");
           PostCloudprnt (JObj [])] init
  = [RespJson 200 (JObj [("ok", JBool true); ("id", JNum (inject_Z 1));
                         ("token", JStr "job-1-1700000000000")]);
     job_ready "job-1-1700000000000";
     RespText 200 (Some "text/plain; charset=utf-8") "Order #1";
     RespText 200 None "OK";
     no_job_ready].
Proof. vm_compute. reflexivity. Qed.

(** ** Tokens

    A token reads [job-<id>-<time>].  The id is printed in decimal, so the
    dash that follows it is the first character after the prefix that is
    not a digit: the id can be read back from the token whatever the clock
    said. *)

Lemma uint_digits d : all_digits (NilEmpty.string_of_uint d) = true.
Proof. induction d; simpl; auto. Qed.

Lemma show_int_digits n : 0 ≤ n → all_digits (show_int n) = true.
Proof.
  intros Hn. destruct n as [|p|p]; [reflexivity| |lia].
  unfold show_int; simpl. unfold NilZero.string_of_uint.
  destruct (Pos.to_uint p); try reflexivity; apply uint_digits.
Qed.

Lemma digits_delim a b r1 r2 :
  all_digits a = true → all_digits b = true →
  a +:+ "-" +:+ r1 = b +:+ "-" +:+ r2 → a = b.
Proof.
  revert b. induction a as [|c a IH]; intros [|c' b]; simpl; intros Ha Hb Heq.
  - reflexivity.
  - injection Heq as <- _. discriminate Hb.
  - injection Heq as -> _. discriminate Ha.
  - apply andb_prop in Ha as [_ Ha]. apply andb_prop in Hb as [_ Hb].
    injection Heq as -> Heq. f_equal. eauto.
Qed.

Lemma show_int_inj a b : show_int a = show_int b → a = b.
Proof.
  unfold show_int. intros Heq. apply DecimalZ.to_int_inj.
  assert (Hnn : ∀ n, Z.to_int n ≠ Pos Nil ∧ Z.to_int n ≠ Neg Nil).
  { intros [|p|p]; simpl; split; try discriminate;
      intros [= H]; by apply (DecimalPos.Unsigned.to_uint_nonnil p). }
  destruct (Hnn a) as [Ha1 Ha2], (Hnn b) as [Hb1 Hb2].
  pose proof (NilZero.isi _ Ha1 Ha2) as Ea.
  pose proof (NilZero.isi _ Hb1 Hb2) as Eb.
  rewrite Heq in Ea. congruence.
Qed.

Lemma makeToken_inj a b t1 t2 :
  0 ≤ a → 0 ≤ b → makeToken a t1 = makeToken b t2 → a = b.
Proof.
  intros Ha Hb Heq. unfold makeToken in Heq. simpl in Heq.
  injection Heq as Heq.
  apply show_int_inj. eapply digits_delim; eauto using show_int_digits.
Qed.

Lemma makeToken_truthy a t : truthy (JStr (makeToken a t)) = true.
Proof. reflexivity. Qed.

(** ** What each handler computes *)

Lemma order_text_spec text :
  order_text text =
    match text with
    | JStr t => if decide (t = "") then None else Some t
    | _ => None
    end.
Proof.
  destruct text as [| |b|n|t|l|o]; try reflexivity; unfold order_text; simpl.
  - by destruct b.
  - by destruct (negb (Qeq_bool n 0)).
  - destruct (String.eqb_spec t ""); case_decide; simpl; congruence.
Qed.

Lemma post_api_order_unfold body now s :
  post_api_order body now s =
    match order_text (body_text body) with
    | None => (order_rejected, s)
    | Some t =>
        (order_accepted (nextJobId s) (makeToken (nextJobId s) now),
         enqueue {| id := nextJobId s; token := makeToken (nextJobId s) now;
                    content := t; status := Pending |} s)
    end.
Proof. unfold post_api_order. by destruct (order_text _). Qed.

Lemma post_cloudprnt_unfold body s :
  post_cloudprnt body s =
    match list_find (λ j, status j = Pending) (jobs s) with
    | None => (no_job_ready, s)
    | Some (i, j) => (job_ready (token j), mark i Printing s)
    end.
Proof.
  unfold post_cloudprnt, mbind, M_bind, get_jobs.
  by destruct (list_find _ _) as [[i j]|].
Qed.

Lemma get_cloudprnt_unfold tok s :
  get_cloudprnt tok s =
    if truthy tok then
      match find_by_token tok (jobs s) with
      | None => (job_not_found, s)
      | Some (_, j) =>
          (RespText 200 (Some "text/plain; charset=utf-8") (content j), s)
      end
    else (missing_job_token, s).
Proof.
  unfold get_cloudprnt. destruct (truthy tok); [|done]. simpl.
  unfold mbind, M_bind, get_jobs. by destruct (find_by_token _ _) as [[i j]|].
Qed.

Lemma delete_cloudprnt_unfold tok st s :
  delete_cloudprnt tok st s =
    if truthy tok then
      match find_by_token tok (jobs s) with
      | None => (job_not_found, s)
      | Some (i, _) => (RespText 200 None "OK", mark i (outcome st) s)
      end
    else (missing_job_token, s).
Proof.
  unfold delete_cloudprnt, outcome. destruct (truthy tok); [|done]. simpl.
  unfold mbind, M_bind, get_jobs. destruct (find_by_token _ _) as [[i j]|]; [|done].
  by destruct (strict_eq_str "0" st).
Qed.

(** ** Runs *)

Lemma serve_cons r rs s :
  serve (r :: rs) s =
    ((handle r s).1 :: (serve rs (handle r s).2).1, (serve rs (handle r s).2).2).
Proof.
  simpl. unfold mbind, M_bind. destruct (handle r s) as [a s1]. simpl.
  by destruct (serve rs s1).
Qed.

Lemma replies_cons r rs s :
  replies (r :: rs) s = (handle r s).1 :: replies rs (handle r s).2.
Proof. unfold replies. by rewrite serve_cons. Qed.

Lemma after_cons r rs s : after (r :: rs) s = after rs (handle r s).2.
Proof. unfold after. by rewrite serve_cons. Qed.

Lemma after_app rs1 rs2 s : after (rs1 ++ rs2) s = after rs2 (after rs1 s).
Proof.
  revert s. induction rs1 as [|r rs1 IH]; intros s; [done|].
  simpl app. by rewrite !after_cons, IH.
Qed.

Lemma replies_app rs1 rs2 s :
  replies (rs1 ++ rs2) s = (replies rs1 s ++ replies rs2 (after rs1 s))%list.
Proof.
  revert s. induction rs1 as [|r rs1 IH]; intros s; [done|].
  simpl app. by rewrite !replies_cons, after_cons, IH.
Qed.

(** ** Every request is one transition *)

Lemma handle_transition r s : transition s (handle r s).2.
Proof.
  destruct r as [body now| |body|tok|tok st]; simpl.
  - rewrite post_api_order_unfold. destruct (order_text _); simpl; constructor.
  - constructor.
  - rewrite post_cloudprnt_unfold.
    destruct (list_find _ _) as [[i j]|] eqn:Hf; simpl; [|constructor].
    apply list_find_Some in Hf as (Hi & Hp & _).
    apply tr_claim. unfold status_at. by rewrite Hi; simpl; f_equal.
  - rewrite get_cloudprnt_unfold.
    destruct (truthy tok); [|constructor].
    destruct (find_by_token _ _) as [[i j]|]; constructor.
  - rewrite delete_cloudprnt_unfold.
    destruct (truthy tok); [|constructor].
    destruct (find_by_token _ _) as [[i j]|]; simpl; [|constructor].
    apply tr_ack. unfold outcome, is_terminal. destruct (strict_eq_str _ _); auto.
Qed.

(** ** Looking into a changed store *)

Lemma lookup_mark k st s i :
  jobs (mark k st s) !! i =
    if decide (k = i) then with_status st <$> jobs s !! i else jobs s !! i.
Proof.
  unfold mark; simpl. rewrite list_lookup_alter.
  case_decide; by subst.
Qed.

Lemma status_at_mark k st s i :
  status_at i (mark k st s) =
    if decide (k = i) then (λ _, st) <$> status_at i s else status_at i s.
Proof.
  unfold status_at. rewrite lookup_mark. case_decide; [|done].
  by destruct (jobs s !! i).
Qed.

Lemma lookup_mark_Some k st s i j :
  jobs (mark k st s) !! i = Some j →
  ∃ j0, jobs s !! i = Some j0 ∧
        id j = id j0 ∧ token j = token j0 ∧ content j = content j0.
Proof.
  rewrite lookup_mark. case_decide; [|by eauto].
  destruct (jobs s !! i) as [j0|]; simpl; [|done].
  intros [= <-]. by exists j0.
Qed.

Lemma length_mark k st s : length (jobs (mark k st s)) = length (jobs s).
Proof. unfold mark; simpl. apply length_alter. Qed.

Lemma transition_lookup s s' i j :
  transition s s' → jobs s !! i = Some j →
  ∃ j', jobs s' !! i = Some j' ∧
        id j' = id j ∧ token j' = token j ∧ content j' = content j.
Proof.
  intros Ht Hi. destruct Ht as [|k _|k st _|t now].
  - by exists j.
  - rewrite lookup_mark, Hi. case_decide; simpl; eauto.
  - rewrite lookup_mark, Hi. case_decide; simpl; eauto.
  - exists j. split; [|done]. simpl. by apply lookup_app_l_Some.
Qed.

(** ** The invariant of reachable stores *)

Lemma store_ok_init : store_ok init.
Proof. split; [done|]. intros i j Hi. by destruct i. Qed.

Lemma store_ok_mark k st s : store_ok s → store_ok (mark k st s).
Proof.
  intros [Hn Hj]. split.
  - by rewrite length_mark.
  - intros i j (j0 & Hi & Hid & Htok & _)%lookup_mark_Some.
    rewrite Hid, Htok. eauto.
Qed.

Lemma store_ok_transition s s' : store_ok s → transition s s' → store_ok s'.
Proof.
  intros Hok Ht. destruct Ht as [|k _|k st _|t now];
    [done|by apply store_ok_mark..|].
  destruct Hok as [Hn Hj]. split; simpl.
  - rewrite length_app; simpl. lia.
  - intros i j [Hi|[Hlen Hi]]%lookup_app_Some; [by eauto|].
    apply list_lookup_singleton_Some in Hi as [Hi <-]. simpl.
    split; [lia|by eauto].
Qed.

Lemma store_ok_after rs s : store_ok s → store_ok (after rs s).
Proof.
  revert s. induction rs as [|r rs IH]; intros s Hok; [done|].
  rewrite after_cons. eauto using store_ok_transition, handle_transition.
Qed.

Lemma reachable_ok rs : store_ok (after rs init).
Proof. apply store_ok_after, store_ok_init. Qed.

Lemma transition_counter s s' : transition s s' → nextJobId s ≤ nextJobId s'.
Proof. intros [|k _|k st _|t now]; simpl; lia. Qed.

Lemma after_counter rs s : nextJobId s ≤ nextJobId (after rs s).
Proof.
  revert s. induction rs as [|r rs IH]; intros s; [done|].
  rewrite after_cons. etrans; [|apply IH].
  apply transition_counter, handle_transition.
Qed.

(** In a reachable store a token names one job only, so looking a job's
    token up finds that very job. *)
Lemma find_by_token_ok s i j :
  store_ok s → jobs s !! i = Some j →
  find_by_token (JStr (token j)) (jobs s) = Some (i, j).
Proof.
  intros [_ Hj] Hi. apply list_find_Some. split_and!; [done|..].
  - simpl. by rewrite String.eqb_refl.
  - intros k jk Hk Hlt. simpl. intros Heq%Is_true_true%String.eqb_eq.
    destruct (Hj _ _ Hi) as [Hidi [ni Hti]], (Hj _ _ Hk) as [Hidk [nk Htk]].
    rewrite Hti, Htk in Heq. apply makeToken_inj in Heq; lia.
Qed.

Lemma find_by_token_Some tok js i j :
  find_by_token tok js = Some (i, j) → js !! i = Some j ∧ tok = JStr (token j).
Proof.
  intros (Hi & Hp & _)%list_find_Some. split; [done|].
  destruct tok; simpl in Hp; try done.
  by apply Is_true_true, String.eqb_eq in Hp as ->.
Qed.

(** ** Polling: [POST /cloudprnt] *)

Lemma mark_insert i st s j :
  jobs s !! i = Some j →
  mark i st s =
    {| nextJobId := nextJobId s; jobs := <[i := with_status st j]> (jobs s) |}.
Proof.
  intros Hi. unfold mark. f_equal. apply list_eq. intros k.
  rewrite list_lookup_alter. destruct (decide (i = k)) as [->|Hne].
  - rewrite Hi. simpl. symmetry. apply list_lookup_insert_eq.
    by eapply lookup_lt_Some.
  - by rewrite list_lookup_insert_ne.
Qed.

Lemma no_pending_find js :
  Forall (λ j, status j ≠ Pending) js →
  list_find (λ j, status j = Pending) js = None.
Proof. intros H. by apply list_find_None. Qed.

Lemma oldest_pending_find js i j :
  js !! i = Some j → status j = Pending →
  (∀ k jk, js !! k = Some jk → (k < i)%nat → status jk ≠ Pending) →
  list_find (λ j, status j = Pending) js = Some (i, j).
Proof. intros Hi Hp Hold. apply list_find_Some. eauto. Qed.

(** C6. A poll with no pending job answers 200 with
    [{ jobReady: 0, mediaTypes: ["text/plain"] }] and leaves the store as it
    is; a poll with a pending job turns the oldest pending job to printing
    and answers 200 with [{ jobReady: 1, jobToken: <its token>,
    mediaTypes: ["text/plain"], pollInterval: 5 }]. *)
Theorem poll_dispatch body s :
  (Forall (λ j, status j ≠ Pending) (jobs s) →
   post_cloudprnt body s =
     (RespJson 200 (JObj [("jobReady", JNum (inject_Z 0));
                          ("mediaTypes", JArr [JStr "text/plain"])]),
      s)) ∧
  (∀ i j,
     jobs s !! i = Some j → status j = Pending →
     (∀ k jk, jobs s !! k = Some jk → (k < i)%nat → status jk ≠ Pending) →
     post_cloudprnt body s =
       (RespJson 200 (JObj [("jobReady", JNum (inject_Z 1));
                            ("jobToken", JStr (token j));
                            ("mediaTypes", JArr [JStr "text/plain"]);
                            ("pollInterval", JNum (inject_Z 5))]),
        {| nextJobId := nextJobId s;
           jobs := <[i := with_status Printing j]> (jobs s) |})).
Proof.
  split.
  - intros Hnone. by rewrite post_cloudprnt_unfold, no_pending_find.
  - intros i j Hi Hp Hold.
    rewrite post_cloudprnt_unfold, (oldest_pending_find _ i j) by done.
    by rewrite (mark_insert _ _ _ j).
Qed.

Lemma poll_dispatch_witness :
  post_cloudprnt (JObj []) init = (no_job_ready, init) ∧
  post_cloudprnt (JObj [])
    {| nextJobId := 3;
       jobs := [Job 1 "job-1-50" "Margherita" Done;
                Job 2 "job-2-60" "Calzone" Pending] |}
  = (job_ready "job-2-60",
     {| nextJobId := 3;
        jobs := [Job 1 "job-1-50" "Margherita" Done;
                 Job 2 "job-2-60" "Calzone" Printing] |}).
Proof.
  split.
  - apply (proj1 (poll_dispatch (JObj []) init)). constructor.
  - apply (proj2 (poll_dispatch (JObj [])
                    {| nextJobId := 3;
                       jobs := [Job 1 "job-1-50" "Margherita" Done;
                                Job 2 "job-2-60" "Calzone" Pending] |})
             1%nat (Job 2 "job-2-60" "Calzone" Pending)).
    + reflexivity.
    + reflexivity.
    + intros [|k] jk Hk Hlt; [|lia].
      injection Hk as <-. discriminate.
Defined.

(** ** Fetching: [GET /cloudprnt] *)

(** C10. Fetching never changes the store, whatever the [job_token]
    parameter is (absent, empty, unknown, or the token of a stored job). *)
Theorem fetch_pure_read tok s :
  (get_cloudprnt tok s).2 = s ∧ (handle (GetCloudprnt tok) s).2 = s.
Proof.
  simpl. rewrite get_cloudprnt_unfold.
  destruct (truthy tok); [|done].
  by destruct (find_by_token tok (jobs s)) as [[i j]|].
Qed.

(** ** Ordering: [POST /api/order] *)

(** C8. An order whose body has no [text], or whose [text] is empty or not
    a string, is answered 400 with [{ error: ... }] and changes nothing in
    the store; every other order is answered 200 with [{ ok: true, id,
    token }] and adds one pending job carrying that id, that token and the
    text, advancing the counter by one. *)
Theorem order_validation body now s :
  ((∀ t, body_text body = JStr t → t = "") →
   post_api_order body now s =
     (RespJson 400 (JObj [("error", JStr "Missing 'text' field")]), s)) ∧
  (∀ t, body_text body = JStr t → t ≠ "" →
   post_api_order body now s =
     (RespJson 200 (JObj [("ok", JBool true);
                          ("id", JNum (inject_Z (nextJobId s)));
                          ("token", JStr (makeToken (nextJobId s) now))]),
      {| nextJobId := nextJobId s + 1;
         jobs := jobs s ++ [ {| id := nextJobId s;
                                token := makeToken (nextJobId s) now;
                                content := t;
                                status := Pending |} ] |})).
Proof.
  rewrite post_api_order_unfold, order_text_spec. split.
  - intros Hbad. destruct (body_text body) as [| | | |t| |]; try done.
    case_decide as Ht; [done|]. by destruct Ht; apply Hbad.
  - intros t -> Ht. by rewrite decide_False.
Qed.

Lemma order_validation_witness :
  post_api_order JUndefined 7 init = (order_rejected, init) ∧
  post_api_order (JObj [("qty", JNum (inject_Z 2))]) 7 init = (order_rejected, init) ∧
  post_api_order (order "") 7 init = (order_rejected, init) ∧
  post_api_order (JObj [("text", JNum (inject_Z 42))]) 7 init = (order_rejected, init) ∧
  post_api_order (order "Order #1") 7 init =
    (order_accepted 1 "job-1-7",
     {| nextJobId := 2; jobs := [Job 1 "job-1-7" "Order #1" Pending] |}).
Proof.
  split_and!.
  - apply (proj1 (order_validation JUndefined 7 init)). intros t Ht. discriminate Ht.
  - apply (proj1 (order_validation (JObj [("qty", JNum (inject_Z 2))]) 7 init)).
    intros t Ht. discriminate Ht.
  - apply (proj1 (order_validation (order "") 7 init)).
    intros t Ht. injection Ht as <-. reflexivity.
  - apply (proj1 (order_validation (JObj [("text", JNum (inject_Z 42))]) 7 init)).
    intros t Ht. discriminate Ht.
  - apply (proj2 (order_validation (order "Order #1") 7 init) "Order #1").
    + reflexivity.
    + discriminate.
Defined.

(** ** First in, first out *)

(** Jobs that are not pending are skipped by a poll. *)
Lemma poll_skip body m l t :
  Forall (λ j, status j ≠ Pending) l →
  post_cloudprnt body {| nextJobId := m; jobs := l ++ t |} =
    match list_find (λ j, status j = Pending) t with
    | None => (no_job_ready, {| nextJobId := m; jobs := l ++ t |})
    | Some (i, j) =>
        (job_ready (token j),
         {| nextJobId := m; jobs := l ++ alter (with_status Printing) i t |})
    end.
Proof.
  intros Hl. rewrite post_cloudprnt_unfold. simpl.
  rewrite list_find_app_r by by apply no_pending_find.
  destruct (list_find _ t) as [[i j]|]; simpl; [|done].
  unfold mark; simpl. by rewrite Nat.add_comm, alter_app_r.
Qed.

Lemma order_accept t now s :
  t ≠ "" →
  post_api_order (order t) now s =
    (order_accepted (nextJobId s) (makeToken (nextJobId s) now),
     enqueue {| id := nextJobId s; token := makeToken (nextJobId s) now;
                content := t; status := Pending |} s).
Proof.
  intros Ht. rewrite post_api_order_unfold, order_text_spec. simpl.
  by rewrite decide_False.
Qed.

(** C3. A poll answers with the token of the pending job that entered the
    queue first; so when orders A, B and C are placed in this order on a
    queue without pending jobs, the next three polls hand out the tokens of
    A, B and C in this order. *)
Theorem dispatch_fifo :
  (∀ body s i j,
     jobs s !! i = Some j → status j = Pending →
     (∀ k jk, jobs s !! k = Some jk → (k < i)%nat → status jk ≠ Pending) →
     (post_cloudprnt body s).1 = job_ready (token j)) ∧
  (∀ s tA tB tC nowA nowB nowC b1 b2 b3,
     Forall (λ j, status j ≠ Pending) (jobs s) →
     tA ≠ "" → tB ≠ "" → tC ≠ "" →
     let n := nextJobId s in
     replies [PostApiOrder (order tA) nowA;
              PostApiOrder (order tB) nowB;
              PostApiOrder (order tC) nowC;
              PostCloudprnt b1; PostCloudprnt b2; PostCloudprnt b3] s =
       [order_accepted n (makeToken n nowA);
        order_accepted (n + 1) (makeToken (n + 1) nowB);
        order_accepted (n + 1 + 1) (makeToken (n + 1 + 1) nowC);
        job_ready (makeToken n nowA);
        job_ready (makeToken (n + 1) nowB);
        job_ready (makeToken (n + 1 + 1) nowC)]).
Proof.
  split.
  - intros body s i j Hi Hp Hold.
    by rewrite post_cloudprnt_unfold, (oldest_pending_find _ i j).
  - intros s tA tB tC nowA nowB nowC b1 b2 b3 Hs HA HB HC n. subst n.
    rewrite !replies_cons. cbn [handle].
    rewrite (order_accept tA) by done. cbn [fst snd].
    rewrite (order_accept tB) by done. cbn [fst snd].
    rewrite (order_accept tC) by done. cbn [fst snd].
    unfold enqueue. cbn [nextJobId jobs].
    rewrite <- !app_assoc. cbn [app].
    do 3 (rewrite poll_skip by done; cbn;
          rewrite ?decide_False by done; rewrite ?decide_True by done; cbn).
    reflexivity.
Qed.

Lemma dispatch_fifo_witness :
  (post_cloudprnt (JObj [])
     {| nextJobId := 3;
        jobs := [Job 1 "job-1-50" "Margherita" Done;
                 Job 2 "job-2-60" "Calzone" Pending] |}).1
  = job_ready "job-2-60" ∧
  replies [PostApiOrder (order "A") 10; PostApiOrder (order "B") 10;
           PostApiOrder (order "C") 11;
           PostCloudprnt JUndefined; PostCloudprnt JUndefined;
           PostCloudprnt JUndefined] init
  = [order_accepted 1 "job-1-10"; order_accepted 2 "job-2-10";
     order_accepted 3 "job-3-11";
     job_ready "job-1-10"; job_ready "job-2-10"; job_ready "job-3-11"].
Proof.
  split.
  - apply (proj1 dispatch_fifo (JObj [])
             {| nextJobId := 3;
                jobs := [Job 1 "job-1-50" "Margherita" Done;
                         Job 2 "job-2-60" "Calzone" Pending] |}
             1%nat (Job 2 "job-2-60" "Calzone" Pending)).
    + reflexivity.
    + reflexivity.
    + intros [|k] jk Hk Hlt; [|lia].
      injection Hk as <-. discriminate.
  - apply (proj2 dispatch_fifo init "A" "B" "C" 10 10 11
             JUndefined JUndefined JUndefined).
    + constructor.
    + discriminate.
    + discriminate.
    + discriminate.
Defined.

(** ** Simultaneous polls

    The poll handler contains no asynchronous step, so polls that arrive
    together are run one after the other by the event loop, in an order
    the server does not choose: a schedule is a permutation of the
    requests. *)

Lemma polls_idle rs s :
  Forall is_poll rs → Forall (λ j, status j ≠ Pending) (jobs s) →
  replies rs s = replicate (length rs) no_job_ready ∧ after rs s = s.
Proof.
  intros Hrs Hs. induction Hrs as [|r rs Hr _ IH]; [done|].
  destruct r as [| |body| |]; try done.
  rewrite replies_cons, after_cons. cbn [handle].
  rewrite post_cloudprnt_unfold, no_pending_find by done. cbn [fst snd length].
  destruct IH as [-> ->]. done.
Qed.

Lemma claim_only_pending s i j :
  jobs s !! i = Some j →
  (∀ k jk, jobs s !! k = Some jk → status jk = Pending → k = i) →
  Forall (λ j, status j ≠ Pending) (jobs (mark i Printing s)).
Proof.
  intros Hi Honly. apply Forall_lookup. intros k jk.
  rewrite lookup_mark. case_decide as Hk.
  - subst k. rewrite Hi. by intros [= <-].
  - intros Hk' Hp. by apply Hk; symmetry; eapply Honly.
Qed.

(** ** Statuses only move forward *)

Lemma transition_status s s' i st :
  transition s s' → status_at i s = Some st →
  ∃ st', status_at i s' = Some st' ∧
         (st ≠ Pending → st' ≠ Pending) ∧
         (is_terminal st → is_terminal st').
Proof.
  intros Ht Hi. destruct Ht as [|k Hk|k st1 Hst1|t now].
  - by exists st.
  - rewrite status_at_mark. case_decide as Hki.
    + subst k. rewrite Hi in Hk. injection Hk as ->.
      exists Printing. split; [by rewrite Hi|]. split; [done|].
      by intros [?|?].
    + by exists st.
  - rewrite status_at_mark. case_decide as Hki.
    + exists st1. rewrite Hi. split; [done|]. split; [|done].
      by destruct Hst1 as [-> | ->].
    + by exists st.
  - exists st. split; [|done]. unfold status_at in *. simpl.
    destruct (jobs s !! i) as [j|] eqn:Hj; [|done].
    by rewrite (lookup_app_l_Some _ _ _ _ Hj).
Qed.

Lemma after_status rs s i st :
  status_at i s = Some st →
  ∃ st', status_at i (after rs s) = Some st' ∧
         (st ≠ Pending → st' ≠ Pending) ∧
         (is_terminal st → is_terminal st').
Proof.
  revert s st. induction rs as [|r rs IH]; intros s st Hi; [by exists st|].
  rewrite after_cons.
  destruct (transition_status _ _ i st (handle_transition r s) Hi)
    as (st1 & H1 & Hp1 & Ht1).
  destruct (IH _ _ H1) as (st2 & H2 & Hp2 & Ht2).
  exists st2. auto.
Qed.

Lemma token_unique s i j k jk :
  store_ok s → jobs s !! i = Some j → jobs s !! k = Some jk →
  token j = token jk → i = k.
Proof.
  intros [_ Hj] Hi Hk Heq.
  destruct (Hj _ _ Hi) as [Hidi [ni Hti]], (Hj _ _ Hk) as [Hidk [nk Htk]].
  rewrite Hti, Htk in Heq. apply makeToken_inj in Heq; lia.
Qed.

(** A "job ready" answer can only come from a poll that claimed a pending
    job. *)
Lemma job_ready_inv r s t :
  (handle r s).1 = job_ready t →
  ∃ i j, jobs s !! i = Some j ∧ status j = Pending ∧ token j = t ∧
         (handle r s).2 = mark i Printing s.
Proof.
  destruct r as [body now| |body|tok|tok st]; cbn [handle].
  - rewrite post_api_order_unfold. by destruct (order_text _).
  - done.
  - rewrite post_cloudprnt_unfold.
    destruct (list_find _ _) as [[i j]|] eqn:Hf; [|done].
    apply list_find_Some in Hf as (Hi & Hp & _).
    cbn [fst snd]. intros [= Ht]. by exists i, j.
  - rewrite get_cloudprnt_unfold. destruct (truthy tok); [|done].
    by destruct (find_by_token _ _) as [[i j]|].
  - rewrite delete_cloudprnt_unfold. destruct (truthy tok); [|done].
    by destruct (find_by_token _ _) as [[i j]|].
Qed.

Lemma claimed_not_offered rs s i j b :
  store_ok s → jobs s !! i = Some j → status j ≠ Pending →
  replies rs s !! b ≠ Some (job_ready (token j)).
Proof.
  revert s j b. induction rs as [|r rs IH]; intros s j b Hok Hi Hnp; [done|].
  rewrite replies_cons. destruct b as [|b]; simpl.
  - intros [= Hr]. apply job_ready_inv in Hr as (i' & j' & Hi' & Hp' & Ht' & _).
    assert (i' = i) as -> by eauto using token_unique.
    congruence.
  - pose proof (handle_transition r s) as Htr.
    destruct (transition_lookup _ _ _ _ Htr Hi) as (j1 & Hi1 & _ & Htok & _).
    destruct (transition_status _ _ i (status j) Htr) as (st1 & Hs1 & Hp1 & _).
    { unfold status_at. by rewrite Hi. }
    rewrite <- Htok. apply IH; eauto using store_ok_transition.
    unfold status_at in Hs1. rewrite Hi1 in Hs1. injection Hs1 as ->. auto.
Qed.

Lemma dispatched_once rs s a b t :
  store_ok s → (a < b)%nat →
  replies rs s !! a = Some (job_ready t) →
  replies rs s !! b ≠ Some (job_ready t).
Proof.
  revert s a b. induction rs as [|r rs IH]; intros s a b Hok Hab Ha; [done|].
  pose proof (handle_transition r s) as Htr.
  rewrite replies_cons in *. destruct b as [|b]; [lia|].
  destruct a as [|a]; simpl in *.
  - injection Ha as Ha.
    apply job_ready_inv in Ha as (i & j & Hi & Hp & <- & Hs1).
    destruct (transition_lookup _ _ _ _ Htr Hi) as (j1 & Hi1 & _ & Htok & _).
    rewrite <- Htok.
    apply claimed_not_offered with (i := i); eauto using store_ok_transition.
    rewrite Hs1, lookup_mark, decide_True, Hi in Hi1 by done.
    by injection Hi1 as <-.
  - apply IH with (a := a); eauto using store_ok_transition with lia.
Qed.

(** C9. When N polls arrive together at a store holding exactly one pending
    job, whatever the order in which they are run, one of them is told "job
    ready" with that job's token and the other N-1 are told "no job ready";
    and in no run of the server is the same job handed out by two polls. *)
Theorem no_double_dispatch :
  (∀ s i j (reqs sched : list request),
     jobs s !! i = Some j → status j = Pending →
     (∀ k jk, jobs s !! k = Some jk → status jk = Pending → k = i) →
     Forall is_poll reqs → reqs ≠ [] → reqs ≡ₚ sched →
     replies sched s =
       job_ready (token j) :: replicate (length reqs - 1) no_job_ready) ∧
  (∀ rs a b t,
     replies rs init !! a = Some (job_ready t) →
     replies rs init !! b = Some (job_ready t) →
     a = b).
Proof.
  split.
  - intros s i j reqs sched Hi Hp Honly Hpolls Hne Hperm.
    rewrite (Permutation_length Hperm).
    rewrite Hperm in Hpolls.
    destruct sched as [|r rest].
    { by apply Permutation_nil_r in Hperm. }
    apply Forall_cons in Hpolls as [Hr Hrest].
    destruct r as [| |body| |]; try done.
    rewrite replies_cons. cbn [handle].
    rewrite post_cloudprnt_unfold, (oldest_pending_find _ i j); [|done..|].
    + cbn [fst snd length]. replace (S (length rest) - 1)%nat with (length rest) by lia.
      f_equal.
      apply polls_idle; [done|]. by apply claim_only_pending with (j := j).
    + intros k jk Hk Hlt Hpk. specialize (Honly _ _ Hk Hpk). lia.
  - intros rs a b t Ha Hb.
    destruct (Nat.lt_trichotomy a b) as [Hlt|[->|Hlt]]; [|done|].
    + by destruct (dispatched_once rs init a b t store_ok_init Hlt Ha).
    + by destruct (dispatched_once rs init b a t store_ok_init Hlt Hb).
Qed.

Lemma no_double_dispatch_witness :
  replies [PostCloudprnt (JObj [("statusCode", JStr "200 OK")]);
           PostCloudprnt JUndefined;
           PostCloudprnt (JObj [])]
    {| nextJobId := 3;
       jobs := [Job 1 "job-1-50" "Margherita" Done;
                Job 2 "job-2-60" "Calzone" Pending] |}
  = [job_ready "job-2-60"; no_job_ready; no_job_ready] ∧
  (1 = 1)%nat.
Proof.
  split.
  - apply (proj1 no_double_dispatch
             {| nextJobId := 3;
                jobs := [Job 1 "job-1-50" "Margherita" Done;
                         Job 2 "job-2-60" "Calzone" Pending] |}
             1%nat (Job 2 "job-2-60" "Calzone" Pending)
             [PostCloudprnt JUndefined;
              PostCloudprnt (JObj [("statusCode", JStr "200 OK")]);
              PostCloudprnt (JObj [])]).
    + reflexivity.
    + reflexivity.
    + intros [|[|k]] jk Hk Hp; [|reflexivity|discriminate Hk].
      injection Hk as <-. discriminate Hp.
    + repeat constructor.
    + discriminate.
    + apply perm_swap.
  - apply (proj2 no_double_dispatch
             [PostApiOrder (order "Order #1") 50; PostCloudprnt (JObj [])]
             1%nat 1%nat "job-1-50").
    + reflexivity.
    + reflexivity.
Defined.

(** ** Identity of jobs *)

Lemma order_accepted_inv r s a ta :
  (handle r s).1 = order_accepted a ta →
  a = nextJobId s ∧ (∃ now, ta = makeToken a now) ∧
  nextJobId (handle r s).2 = a + 1.
Proof.
  destruct r as [body now| |body|tok|tok st]; cbn [handle].
  - rewrite post_api_order_unfold. destruct (order_text _); [|done].
    cbn [fst snd]. intros [= <- <-]. eauto.
  - done.
  - rewrite post_cloudprnt_unfold. by destruct (list_find _ _) as [[i j]|].
  - rewrite get_cloudprnt_unfold. destruct (truthy tok); [|done].
    by destruct (find_by_token _ _) as [[i j]|].
  - rewrite delete_cloudprnt_unfold. destruct (truthy tok); [|done].
    by destruct (find_by_token _ _) as [[i j]|].
Qed.

Lemma accepted_bound rs s i a ta :
  replies rs s !! i = Some (order_accepted a ta) →
  nextJobId s ≤ a ∧ ∃ now, ta = makeToken a now.
Proof.
  revert s i. induction rs as [|r rs IH]; intros s i; [done|].
  rewrite replies_cons. destruct i as [|i]; simpl.
  - intros [= Hr]. apply order_accepted_inv in Hr as (-> & Ht & _). by split.
  - intros Hi. apply IH in Hi as [Hle Ht]. split; [|done].
    pose proof (transition_counter _ _ (handle_transition r s)). lia.
Qed.

Lemma accepted_later rs s i j a ta b tb :
  0 ≤ nextJobId s → (i < j)%nat →
  replies rs s !! i = Some (order_accepted a ta) →
  replies rs s !! j = Some (order_accepted b tb) →
  a < b ∧ ta ≠ tb.
Proof.
  revert s i j. induction rs as [|r rs IH]; intros s i j Hs Hij; [done|].
  pose proof (transition_counter _ _ (handle_transition r s)) as Hmono.
  rewrite replies_cons. destruct j as [|j]; [lia|].
  destruct i as [|i]; simpl.
  - intros [= Hr] Hj.
    apply order_accepted_inv in Hr as (-> & [na ->] & Hnext).
    apply accepted_bound in Hj as [Hle [nb ->]].
    split; [lia|]. intros Heq. apply makeToken_inj in Heq; lia.
  - apply IH; lia.
Qed.

(** C5. In every run of the server from its start, the ids returned to
    accepted orders grow strictly from one accepted order to the next, and
    no two accepted orders are given the same token. *)
Theorem ids_increase_tokens_differ rs i j a ta b tb :
  (i < j)%nat →
  replies rs init !! i = Some (order_accepted a ta) →
  replies rs init !! j = Some (order_accepted b tb) →
  a < b ∧ ta ≠ tb.
Proof. by apply accepted_later. Qed.

Lemma ids_increase_tokens_differ_witness : 1 < 2 ∧ "job-1-99" ≠ "job-2-99".
Proof.
  apply (ids_increase_tokens_differ
           [PostApiOrder (order "first") 99; PostCloudprnt JUndefined;
            PostApiOrder (JObj []) 99; PostApiOrder (order "second") 99]
           0%nat 3%nat 1 "job-1-99" 2 "job-2-99").
  - lia.
  - reflexivity.
  - reflexivity.
Defined.

(** ** Content is stored once and read back unchanged *)

Lemma after_lookup rs s i j :
  jobs s !! i = Some j →
  ∃ j', jobs (after rs s) !! i = Some j' ∧
        id j' = id j ∧ token j' = token j ∧ content j' = content j.
Proof.
  revert s j. induction rs as [|r rs IH]; intros s j Hi; [by exists j|].
  rewrite after_cons.
  destruct (transition_lookup _ _ _ _ (handle_transition r s) Hi)
    as (j1 & H1 & Hid1 & Htok1 & Hc1).
  destruct (IH _ _ H1) as (j2 & H2 & Hid2 & Htok2 & Hc2).
  exists j2. split; [done|]. by rewrite Hid2, Htok2, Hc2.
Qed.

Lemma token_truthy s i j :
  store_ok s → jobs s !! i = Some j → truthy (JStr (token j)) = true.
Proof. intros [_ Hj] Hi. by destruct (Hj _ _ Hi) as [_ [now ->]]. Qed.

Lemma fetch_stored s i j :
  store_ok s → jobs s !! i = Some j →
  get_cloudprnt (JStr (token j)) s =
    (RespText 200 (Some "text/plain; charset=utf-8") (content j), s).
Proof.
  intros Hok Hi. rewrite get_cloudprnt_unfold.
  by rewrite (token_truthy s i j), (find_by_token_ok s i j).
Qed.

Lemma find_by_token_None tok js :
  (∀ j, j ∈ js → strict_eq_str (token j) tok = false) →
  find_by_token tok js = None.
Proof.
  intros Hno. apply list_find_None, Forall_forall. intros j Hj.
  rewrite (Hno j Hj). by intros [].
Qed.

(** C4. The text of an accepted order is what a later fetch with the token
    returned for that order sends back, character for character, whatever
    requests were served before the order and between the order and the
    fetch; the job keeps that text in the queue all along.  A fetch whose
    token is carried by no job is answered 404. *)
Theorem content_round_trip :
  (∀ pre mid body now t,
     body_text body = JStr t → t ≠ "" →
     let s1 := after pre init in
     let tok := makeToken (nextJobId s1) now in
     let s3 := after (pre ++ PostApiOrder body now :: mid) init in
     (handle (PostApiOrder body now) s1).1 = order_accepted (nextJobId s1) tok ∧
     content <$> jobs s3 !! length (jobs s1) = Some t ∧
     get_cloudprnt (JStr tok) s3 =
       (RespText 200 (Some "text/plain; charset=utf-8") t, s3)) ∧
  (∀ tok s,
     truthy tok = true →
     (∀ j, j ∈ jobs s → strict_eq_str (token j) tok = false) →
     get_cloudprnt tok s = (RespText 404 None "Job not found", s)).
Proof.
  split.
  - intros pre mid body now t Hbody Ht s1 tok s3.
    assert (Hacc : handle (PostApiOrder body now) s1 =
              (order_accepted (nextJobId s1) tok,
               enqueue {| id := nextJobId s1; token := tok;
                          content := t; status := Pending |} s1)).
    { cbn [handle]. rewrite post_api_order_unfold, order_text_spec, Hbody.
      by rewrite decide_False. }
    split; [by rewrite Hacc|].
    assert (Hnew : jobs (handle (PostApiOrder body now) s1).2
                     !! length (jobs s1)
                   = Some {| id := nextJobId s1; token := tok;
                             content := t; status := Pending |}).
    { rewrite Hacc. simpl. apply list_lookup_middle. done. }
    destruct (after_lookup mid _ _ _ Hnew) as (j' & Hj' & _ & Htok & Hc).
    assert (Hs3 : s3 = after mid (handle (PostApiOrder body now) s1).2).
    { subst s3 s1. by rewrite after_app, after_cons. }
    rewrite <- Hs3 in Hj'. simpl in Htok, Hc.
    split; [by rewrite Hj'; simpl; f_equal|].
    rewrite <- Htok, <- Hc. apply fetch_stored with (i := length (jobs s1)); [|done].
    apply reachable_ok.
  - intros tok s Htok Hno. rewrite get_cloudprnt_unfold, Htok.
    by rewrite find_by_token_None.
Qed.

Lemma content_round_trip_witness :
  get_cloudprnt (JStr "job-2-1700000000500")
    (after ([PostApiOrder (order "Order #1") 1700000000000] ++
            PostApiOrder (order "2 x Pepperoni") 1700000000500 ::
            [PostCloudprnt (JObj []);
             DeleteCloudprnt (JStr "job-1-1700000000000") (JStr "0");
             PostCloudprnt (JObj []);
             DeleteCloudprnt (JStr "job-2-1700000000500") (JStr "7")]) init)
  = (RespText 200 (Some "text/plain; charset=utf-8") "2 x Pepperoni",
     {| nextJobId := 3;
        jobs := [Job 1 "job-1-1700000000000" "Order #1" Done;
                 Job 2 "job-2-1700000000500" "2 x Pepperoni" Error] |}) ∧
  get_cloudprnt (JStr "job-9-1") init = (job_not_found, init).
Proof.
  split.
  - apply (proj1 content_round_trip
             [PostApiOrder (order "Order #1") 1700000000000]
             [PostCloudprnt (JObj []);
              DeleteCloudprnt (JStr "job-1-1700000000000") (JStr "0");
              PostCloudprnt (JObj []);
              DeleteCloudprnt (JStr "job-2-1700000000500") (JStr "7")]
             (order "2 x Pepperoni") 1700000000500 "2 x Pepperoni").
    + reflexivity.
    + discriminate.
  - apply (proj2 content_round_trip (JStr "job-9-1") init).
    + reflexivity.
    + intros j Hj. inversion Hj.
Defined.

(** C7. A fetch with the token of a stored job is answered 200 with the
    job's content whatever the job's status is: the answer is the same for
    the job as it stands and for the same job put in any status, done and
    error included. *)
Theorem fetch_status_blind rs i j :
  jobs (after rs init) !! i = Some j →
  get_cloudprnt (JStr (token j)) (after rs init) =
    (RespText 200 (Some "text/plain; charset=utf-8") (content j),
     after rs init) ∧
  ∀ st,
    status_at i (mark i st (after rs init)) = Some st ∧
    (get_cloudprnt (JStr (token j)) (mark i st (after rs init))).1 =
      RespText 200 (Some "text/plain; charset=utf-8") (content j).
Proof.
  intros Hi. split.
  - apply fetch_stored with (i := i); [apply reachable_ok|done].
  - intros st. split.
    + by rewrite status_at_mark, decide_True; unfold status_at; rewrite ?Hi.
    + assert (Hm : jobs (mark i st (after rs init)) !! i
                   = Some (with_status st j)).
      { by rewrite lookup_mark, decide_True, Hi. }
      change (token j) with (token (with_status st j)).
      change (content j) with (content (with_status st j)).
      erewrite fetch_stored; [done| |exact Hm].
      apply store_ok_mark, reachable_ok.
Qed.

Lemma fetch_status_blind_witness :
  get_cloudprnt (JStr "job-1-5")
    {| nextJobId := 2; jobs := [Job 1 "job-1-5" "Order #1" Done] |}
  = (RespText 200 (Some "text/plain; charset=utf-8") "Order #1",
     {| nextJobId := 2; jobs := [Job 1 "job-1-5" "Order #1" Done] |}).
Proof.
  apply (fetch_status_blind
           [PostApiOrder (order "Order #1") 5; PostCloudprnt (JObj []);
            DeleteCloudprnt (JStr "job-1-5") (JStr "0")]
           0%nat (Job 1 "job-1-5" "Order #1" Done)).
  reflexivity.
Defined.

(** ** Acknowledging: [DELETE /cloudprnt] *)

Lemma ack_stored s i j st :
  store_ok s → jobs s !! i = Some j →
  delete_cloudprnt (JStr (token j)) st s =
    (RespText 200 None "OK", mark i (outcome st) s).
Proof.
  intros Hok Hi. rewrite delete_cloudprnt_unfold.
  by rewrite (token_truthy s i j), (find_by_token_ok s i j).
Qed.

(** The handler has no check of the job's present status: a second
    acknowledgment with another status code replaces the recorded outcome. *)
Lemma terminal_status_overwritten :
  status_at 0
    (after [PostApiOrder (order "Order #1") 1700000000000;
            PostCloudprnt (JObj []);
            DeleteCloudprnt (JStr "job-1-1700000000000") (JStr "0")] init)
  = Some Done ∧
  handle (DeleteCloudprnt (JStr "job-1-1700000000000") (JStr "1"))
    (after [PostApiOrder (order "Order #1") 1700000000000;
            PostCloudprnt (JObj []);
            DeleteCloudprnt (JStr "job-1-1700000000000") (JStr "0")] init)
  = (RespText 200 None "OK",
     {| nextJobId := 2;
        jobs := [Job 1 "job-1-1700000000000" "Order #1" Error] |}) ∧
  status_at 0
    (after [PostApiOrder (order "Order #1") 1700000000000;
            PostCloudprnt (JObj []);
            DeleteCloudprnt (JStr "job-1-1700000000000") (JStr "0");
            DeleteCloudprnt (JStr "job-1-1700000000000") (JStr "1")] init)
  ≠ status_at 0
      (after [PostApiOrder (order "Order #1") 1700000000000;
              PostCloudprnt (JObj []);
              DeleteCloudprnt (JStr "job-1-1700000000000") (JStr "0")] init).
Proof. vm_compute. split_and!; congruence. Qed.

(** A job that is no longer pending is touched by one kind of request
    only: an acknowledgment carrying its own token. *)
Lemma handle_keeps_job r s i j :
  jobs s !! i = Some j → status j ≠ Pending →
  (∀ st, r ≠ DeleteCloudprnt (JStr (token j)) st) →
  jobs (handle r s).2 !! i = Some j.
Proof.
  intros Hi Hnp Hr. destruct r as [body now| |body|tok|tok st]; cbn [handle].
  - rewrite post_api_order_unfold. destruct (order_text _); [|done].
    simpl. by apply lookup_app_l_Some.
  - done.
  - rewrite post_cloudprnt_unfold.
    destruct (list_find _ _) as [[k jk]|] eqn:Hf; [|done].
    apply list_find_Some in Hf as (Hk & Hp & _). cbn [snd].
    rewrite lookup_mark, decide_False; [done|]. intros ->. congruence.
  - rewrite get_cloudprnt_unfold. destruct (truthy tok); [|done].
    by destruct (find_by_token _ _) as [[k jk]|].
  - rewrite delete_cloudprnt_unfold. destruct (truthy tok); [|done].
    destruct (find_by_token _ _) as [[k jk]|] eqn:Hf; [|done].
    apply find_by_token_Some in Hf as [Hk ->]. cbn [snd].
    rewrite lookup_mark, decide_False; [done|]. intros ->.
    destruct (Hr st). congruence.
Qed.

Lemma after_keeps_job rs s i j :
  jobs s !! i = Some j → status j ≠ Pending →
  Forall (λ r, ∀ st, r ≠ DeleteCloudprnt (JStr (token j)) st) rs →
  jobs (after rs s) !! i = Some j.
Proof.
  intros Hi Hnp Hrs. revert s Hi.
  induction Hrs as [|r rs Hr _ IH]; intros s Hi; [done|].
  rewrite after_cons. by apply IH, handle_keeps_job.
Qed.

Lemma outcome_not_pending st : outcome st ≠ Pending.
Proof. unfold outcome. by destruct (strict_eq_str _ _). Qed.

(** In a reachable store the status of such a job after a run is the one
    recorded by the last acknowledgment of its token in the run. *)
Lemma after_last_outcome rs s i j :
  store_ok s → jobs s !! i = Some j → status j ≠ Pending →
  jobs (after rs s) !! i =
    Some (with_status (last_outcome (token j) rs (status j)) j).
Proof.
  revert s j. induction rs as [|r rs IH]; intros s j Hok Hi Hnp.
  - change (after [] s) with s. rewrite Hi. by destruct j.
  - rewrite after_cons.
    pose proof (store_ok_transition _ _ Hok (handle_transition r s)) as Hok'.
    assert (Hother : (∀ st, r ≠ DeleteCloudprnt (JStr (token j)) st) →
              last_outcome (token j) (r :: rs) (status j)
              = last_outcome (token j) rs (status j) →
              jobs (after rs (handle r s).2) !! i =
                Some (with_status
                        (last_outcome (token j) (r :: rs) (status j)) j)).
    { intros Hr ->. apply IH; [done| |done]. by apply handle_keeps_job. }
    destruct r as [body now| |body|tok|tok st0]; try by apply Hother.
    destruct (strict_eq_str (token j) tok) eqn:Heq.
    + destruct tok as [| | | |t| |]; try done. simpl in Heq.
      apply String.eqb_eq in Heq as <-.
      cbn [last_outcome strict_eq_str]. rewrite String.eqb_refl.
      cbn [handle] in *. rewrite (ack_stored s i j st0 Hok Hi) in *.
      cbn [snd] in *.
      rewrite (IH _ (with_status (outcome st0) j)); [done|done| |].
      * by rewrite lookup_mark, decide_True, Hi.
      * apply outcome_not_pending.
    + apply Hother.
      * intros st [= -> _]. simpl in Heq. by rewrite String.eqb_refl in Heq.
      * cbn [last_outcome]. by rewrite Heq.
Qed.

(** C1 (as the code has it). A job that is done or in error stays done or
    in error through every later request: it never goes back to pending or
    printing.  Acknowledging it again is not refused: the answer is 200 OK
    and the job's status becomes the outcome of this acknowledgment, done
    for status "0" and error for anything else.  Nothing else touches the
    job: through any run without an acknowledgment carrying its token the
    job stays exactly as it is, and in general its status after a run is
    the one recorded by the last acknowledgment of its token in that run. *)
Theorem terminal_stays_terminal :
  (∀ s rs i st,
     status_at i s = Some st → is_terminal st →
     ∃ st', status_at i (after rs s) = Some st' ∧ is_terminal st') ∧
  (∀ rs i j st,
     jobs (after rs init) !! i = Some j → is_terminal (status j) →
     delete_cloudprnt (JStr (token j)) st (after rs init) =
       (RespText 200 None "OK", mark i (outcome st) (after rs init)) ∧
     status_at i (mark i (outcome st) (after rs init)) =
       Some (if strict_eq_str "0" st then Done else Error)) ∧
  (∀ s rs i j,
     jobs s !! i = Some j → is_terminal (status j) →
     Forall (λ r, ∀ st, r ≠ DeleteCloudprnt (JStr (token j)) st) rs →
     jobs (after rs s) !! i = Some j) ∧
  (∀ rs rs' i j,
     jobs (after rs init) !! i = Some j → is_terminal (status j) →
     jobs (after rs' (after rs init)) !! i =
       Some {| id := id j; token := token j; content := content j;
               status := last_outcome (token j) rs' (status j) |}).
Proof.
  split_and!.
  - intros s rs i st Hi Hterm.
    destruct (after_status rs s i st Hi) as (st' & Hst' & _ & Ht).
    exists st'. auto.
  - intros rs i j st Hi _. split.
    + apply ack_stored; [apply reachable_ok|done].
    + rewrite status_at_mark, decide_True by done.
      unfold status_at. by rewrite Hi.
  - intros s rs i j Hi Hterm Hrs. apply after_keeps_job; [done| |done].
    by destruct Hterm as [-> | ->].
  - intros rs rs' i j Hi Hterm.
    apply after_last_outcome; [apply reachable_ok|done|].
    by destruct Hterm as [-> | ->].
Qed.

Lemma terminal_stays_terminal_witness :
  (∃ st', status_at 0
            (after [DeleteCloudprnt (JStr "job-1-5") (JStr "3");
                    PostCloudprnt (JObj []);
                    PostApiOrder (order "next") 6]
               {| nextJobId := 2; jobs := [Job 1 "job-1-5" "Order #1" Done] |})
          = Some st' ∧ is_terminal st') ∧
  delete_cloudprnt (JStr "job-1-5") (JStr "3")
    {| nextJobId := 2; jobs := [Job 1 "job-1-5" "Order #1" Done] |}
  = (RespText 200 None "OK",
     {| nextJobId := 2; jobs := [Job 1 "job-1-5" "Order #1" Error] |}) ∧
  jobs (after [PostCloudprnt (JObj []); PostApiOrder (order "next") 6;
               DeleteCloudprnt (JStr "job-2-6") (JStr "1");
               GetCloudprnt (JStr "job-1-5")]
          {| nextJobId := 2; jobs := [Job 1 "job-1-5" "Order #1" Done] |})
    !! 0%nat
  = Some (Job 1 "job-1-5" "Order #1" Done) ∧
  jobs (after [PostCloudprnt (JObj []);
               DeleteCloudprnt (JStr "job-1-5") (JStr "1");
               PostApiOrder (order "next") 6;
               DeleteCloudprnt (JStr "job-1-5") (JStr "0");
               DeleteCloudprnt (JStr "job-2-6") (JStr "1")]
          {| nextJobId := 2; jobs := [Job 1 "job-1-5" "Order #1" Done] |})
    !! 0%nat
  = Some (Job 1 "job-1-5" "Order #1" Done).
Proof.
  split_and!.
  - apply (proj1 terminal_stays_terminal
             {| nextJobId := 2; jobs := [Job 1 "job-1-5" "Order #1" Done] |}
             [DeleteCloudprnt (JStr "job-1-5") (JStr "3");
              PostCloudprnt (JObj []);
              PostApiOrder (order "next") 6]
             0%nat Done).
    + reflexivity.
    + left. reflexivity.
  - apply (proj1 (proj2 terminal_stays_terminal)
             [PostApiOrder (order "Order #1") 5; PostCloudprnt (JObj []);
              DeleteCloudprnt (JStr "job-1-5") (JStr "0")]
             0%nat (Job 1 "job-1-5" "Order #1" Done) (JStr "3")).
    + reflexivity.
    + left. reflexivity.
  - apply (proj1 (proj2 (proj2 terminal_stays_terminal))
             {| nextJobId := 2; jobs := [Job 1 "job-1-5" "Order #1" Done] |}
             [PostCloudprnt (JObj []); PostApiOrder (order "next") 6;
              DeleteCloudprnt (JStr "job-2-6") (JStr "1");
              GetCloudprnt (JStr "job-1-5")]
             0%nat (Job 1 "job-1-5" "Order #1" Done)).
    + reflexivity.
    + left. reflexivity.
    + repeat constructor; intros st Hst; discriminate Hst.
  - apply (proj2 (proj2 (proj2 terminal_stays_terminal))
             [PostApiOrder (order "Order #1") 5; PostCloudprnt (JObj []);
              DeleteCloudprnt (JStr "job-1-5") (JStr "0")]
             [PostCloudprnt (JObj []);
              DeleteCloudprnt (JStr "job-1-5") (JStr "1");
              PostApiOrder (order "next") 6;
              DeleteCloudprnt (JStr "job-1-5") (JStr "0");
              DeleteCloudprnt (JStr "job-2-6") (JStr "1")]
             0%nat (Job 1 "job-1-5" "Order #1" Done)).
    + reflexivity.
    + left. reflexivity.
Defined.

(** An acknowledgment without [status] is served like one with a failing
    status. *)
Lemma ack_without_status_recorded :
  status_at 0
    (after [PostApiOrder (order "Order #1") 1700000000000;
            PostCloudprnt (JObj [])] init)
  = Some Printing ∧
  delete_cloudprnt (JStr "job-1-1700000000000") JUndefined
    (after [PostApiOrder (order "Order #1") 1700000000000;
            PostCloudprnt (JObj [])] init)
  = (RespText 200 None "OK",
     {| nextJobId := 2;
        jobs := [Job 1 "job-1-1700000000000" "Order #1" Error] |}) ∧
  (delete_cloudprnt (JStr "job-1-1700000000000") JUndefined
     (after [PostApiOrder (order "Order #1") 1700000000000;
             PostCloudprnt (JObj [])] init)).2
  ≠ after [PostApiOrder (order "Order #1") 1700000000000;
           PostCloudprnt (JObj [])] init.
Proof. vm_compute. split_and!; congruence. Qed.

(** C2 (as the code has it). Only the token is required.  An
    acknowledgment whose [job_token] is absent or empty is answered 400 and
    changes nothing, whatever its [status].  One whose [status] is absent
    is not refused: with a token carried by no job it is answered 404 and
    changes nothing, and with the token of a stored job it is answered
    200 OK and the job is recorded as failed. *)
Theorem ack_required_parameters :
  (∀ tok st s,
     truthy tok = false →
     delete_cloudprnt tok st s = (RespText 400 None "Missing job_token", s)) ∧
  (∀ tok s,
     truthy tok = true →
     (∀ j, j ∈ jobs s → strict_eq_str (token j) tok = false) →
     delete_cloudprnt tok JUndefined s = (RespText 404 None "Job not found", s)) ∧
  (∀ rs i j,
     jobs (after rs init) !! i = Some j →
     delete_cloudprnt (JStr (token j)) JUndefined (after rs init) =
       (RespText 200 None "OK", mark i Error (after rs init)) ∧
     status_at i (mark i Error (after rs init)) = Some Error).
Proof.
  split_and!.
  - intros tok st s Htok. by rewrite delete_cloudprnt_unfold, Htok.
  - intros tok s Htok Hno.
    by rewrite delete_cloudprnt_unfold, Htok, find_by_token_None.
  - intros rs i j Hi. split.
    + apply (ack_stored _ i j JUndefined); [apply reachable_ok|done].
    + rewrite status_at_mark, decide_True by done.
      unfold status_at. by rewrite Hi.
Qed.

Lemma ack_required_parameters_witness :
  delete_cloudprnt JUndefined (JStr "0")
    {| nextJobId := 2; jobs := [Job 1 "job-1-5" "Order #1" Printing] |}
  = (missing_job_token,
     {| nextJobId := 2; jobs := [Job 1 "job-1-5" "Order #1" Printing] |}) ∧
  delete_cloudprnt (JStr "job-8-5") JUndefined
    {| nextJobId := 2; jobs := [Job 1 "job-1-5" "Order #1" Printing] |}
  = (job_not_found,
     {| nextJobId := 2; jobs := [Job 1 "job-1-5" "Order #1" Printing] |}) ∧
  delete_cloudprnt (JStr "job-1-5") JUndefined
    {| nextJobId := 2; jobs := [Job 1 "job-1-5" "Order #1" Printing] |}
  = (RespText 200 None "OK",
     {| nextJobId := 2; jobs := [Job 1 "job-1-5" "Order #1" Error] |}).
Proof.
  split_and!.
  - apply (proj1 ack_required_parameters JUndefined (JStr "0")
             {| nextJobId := 2; jobs := [Job 1 "job-1-5" "Order #1" Printing] |}).
    reflexivity.
  - apply (proj1 (proj2 ack_required_parameters) (JStr "job-8-5")
             {| nextJobId := 2; jobs := [Job 1 "job-1-5" "Order #1" Printing] |}).
    + reflexivity.
    + intros j Hj. apply list_elem_of_singleton in Hj as ->. reflexivity.
  - apply (proj2 (proj2 ack_required_parameters)
             [PostApiOrder (order "Order #1") 5; PostCloudprnt (JObj [])]
             0%nat (Job 1 "job-1-5" "Order #1" Printing)).
    reflexivity.
Defined.

(** * Further properties of the server *)

(** ** Tools for runs *)

Lemma replies_length rs s : length (replies rs s) = length rs.
Proof.
  revert s. induction rs as [|r rs IH]; intros s; [done|].
  rewrite replies_cons. simpl. by rewrite IH.
Qed.

Lemma replies_take n rs s : replies (take n rs) s = take n (replies rs s).
Proof.
  revert n s. induction rs as [|r rs IH]; intros [|n] s; try done.
  simpl take. rewrite !replies_cons. simpl. by rewrite IH.
Qed.

(** The answer to the request at position [b] is the one its handler gives
    in the store left by the requests before it. *)
Lemma reply_at rs s b r :
  rs !! b = Some r →
  replies rs s !! b = Some (handle r (after (take b rs) s)).1.
Proof.
  revert s b. induction rs as [|r0 rs IH]; intros s [|b] Hb; try done.
  - injection Hb as ->. by rewrite replies_cons.
  - simpl take. rewrite replies_cons, after_cons. simpl. by apply IH.
Qed.

Lemma reply_request rs s b a :
  replies rs s !! b = Some a → ∃ r, rs !! b = Some r.
Proof.
  intros Hb%lookup_lt_Some. rewrite replies_length in Hb.
  by apply lookup_lt_is_Some_2.
Qed.

Lemma transition_length s s' :
  transition s s' → (length (jobs s) ≤ length (jobs s'))%nat.
Proof.
  intros [|k _|k st _|t now]; rewrite ?length_mark; simpl;
    rewrite ?length_app; simpl; lia.
Qed.

(** ** The shape of reachable stores *)

(** X1. In every store the server can reach, the job at queue position [i]
    has id [i + 1], the counter is one more than the number of jobs, and
    each token is [makeToken] of the job's own id. *)
Theorem reachable_numbering rs :
  nextJobId (after rs init) = Z.of_nat (length (jobs (after rs init))) + 1 ∧
  ∀ i j, jobs (after rs init) !! i = Some j →
    id j = Z.of_nat i + 1 ∧ ∃ now, token j = makeToken (id j) now.
Proof. apply (store_ok_after rs init store_ok_init). Qed.

(** X2. Nothing ever leaves the queue: whatever requests are served, the
    job found at a position is still at that position afterwards, with the
    id, token and content it had, and the queue has not become shorter. *)
Theorem jobs_are_kept rs s i j :
  jobs s !! i = Some j →
  (∃ j', jobs (after rs s) !! i = Some j' ∧ identity j' = identity j) ∧
  (length (jobs s) ≤ length (jobs (after rs s)))%nat.
Proof.
  intros Hi. split.
  - destruct (after_lookup rs s i j Hi) as (j' & Hj' & Hid & Htok & Hc).
    exists j'. split; [done|]. unfold identity. by rewrite Hid, Htok, Hc.
  - clear Hi. revert s. induction rs as [|r rs IH]; intros s; [done|].
    rewrite after_cons. etrans; [|apply IH].
    apply transition_length, handle_transition.
Qed.

Lemma jobs_are_kept_witness :
  (∃ j', jobs (after [DeleteCloudprnt (JStr "job-1-5") (JStr "0");
                      PostApiOrder (order "next") 6]
                 {| nextJobId := 2;
                    jobs := [Job 1 "job-1-5" "Order #1" Printing] |})
           !! 0%nat = Some j' ∧
         identity j' = identity (Job 1 "job-1-5" "Order #1" Printing)) ∧
  (1 ≤ 2)%nat.
Proof.
  apply (jobs_are_kept
           [DeleteCloudprnt (JStr "job-1-5") (JStr "0");
            PostApiOrder (order "next") 6]
           {| nextJobId := 2; jobs := [Job 1 "job-1-5" "Order #1" Printing] |}
           0%nat (Job 1 "job-1-5" "Order #1" Printing)).
  reflexivity.
Defined.

Lemma handle_accepts_counter r s :
  nextJobId (handle r s).2 = nextJobId s + (if accepts r then 1 else 0).
Proof.
  destruct r as [body now| |body|tok|tok st]; cbn [handle accepts].
  - rewrite post_api_order_unfold. destruct (order_text _); simpl; lia.
  - simpl. lia.
  - rewrite post_cloudprnt_unfold.
    destruct (list_find _ _) as [[i j]|]; simpl; lia.
  - rewrite get_cloudprnt_unfold.
    destruct (truthy tok); [|simpl; lia].
    destruct (find_by_token _ _) as [[i j]|]; simpl; lia.
  - rewrite delete_cloudprnt_unfold.
    destruct (truthy tok); [|simpl; lia].
    destruct (find_by_token _ _) as [[i j]|]; simpl; lia.
Qed.

Lemma handle_accepts_length r s :
  length (jobs (handle r s).2) =
    (length (jobs s) + (if accepts r then 1 else 0))%nat.
Proof.
  destruct r as [body now| |body|tok|tok st]; cbn [handle accepts].
  - rewrite post_api_order_unfold. destruct (order_text _); simpl.
    + by rewrite length_app.
    + lia.
  - simpl. lia.
  - rewrite post_cloudprnt_unfold.
    destruct (list_find _ _) as [[i j]|]; cbn [snd]; rewrite ?length_mark; lia.
  - rewrite get_cloudprnt_unfold.
    destruct (truthy tok); [|simpl; lia].
    destruct (find_by_token _ _) as [[i j]|]; simpl; lia.
  - rewrite delete_cloudprnt_unfold.
    destruct (truthy tok); [|simpl; lia].
    destruct (find_by_token _ _) as [[i j]|]; cbn [snd]; rewrite ?length_mark; lia.
Qed.

(** X3. The queue grows by exactly one job, and the counter by exactly one,
    for each order with a non-empty text: after any run, both have advanced
    by the number of such orders in the run. *)
Theorem queue_counts_orders rs s :
  length (jobs (after rs s)) =
    (length (jobs s) + length (filter (λ r, accepts r = true) rs))%nat ∧
  nextJobId (after rs s) =
    nextJobId s + Z.of_nat (length (filter (λ r, accepts r = true) rs)).
Proof.
  revert s. induction rs as [|r rs IH]; intros s.
  - change (after [] s) with s. rewrite filter_nil. simpl. split; lia.
  - rewrite after_cons. destruct (IH (handle r s).2) as [-> ->].
    rewrite handle_accepts_length, handle_accepts_counter.
    destruct (accepts r) eqn:Hr.
    + rewrite filter_cons_True by done. simpl. split; lia.
    + rewrite filter_cons_False by (by rewrite Hr). simpl. split; lia.
Qed.

(** ** The life of a job *)

(** X4. A job only moves forward through pending, printing and the two
    final statuses: whatever requests are served, its status afterwards is
    not earlier in that order than its status before. *)
Theorem status_never_goes_back rs s i st :
  status_at i s = Some st →
  ∃ st', status_at i (after rs s) = Some st' ∧ (rank st ≤ rank st')%nat.
Proof.
  intros Hi. destruct (after_status rs s i st Hi) as (st' & Hst' & Hp & Ht).
  exists st'. split; [done|].
  destruct st; simpl; try lia.
  - assert (st' ≠ Pending) by by apply Hp. destruct st'; simpl; try lia. done.
  - destruct Ht as [-> | ->]; [by left|done..].
  - destruct Ht as [-> | ->]; [by right|done..].
Qed.

Lemma status_never_goes_back_witness :
  ∃ st', status_at 0
           (after [PostCloudprnt JUndefined; PostCloudprnt JUndefined;
                   DeleteCloudprnt (JStr "job-1-5") JNull]
              {| nextJobId := 2;
                 jobs := [Job 1 "job-1-5" "Order #1" Printing] |})
         = Some st' ∧ (rank Printing ≤ rank st')%nat.
Proof.
  apply (status_never_goes_back
           [PostCloudprnt JUndefined; PostCloudprnt JUndefined;
            DeleteCloudprnt (JStr "job-1-5") JNull]
           {| nextJobId := 2; jobs := [Job 1 "job-1-5" "Order #1" Printing] |}
           0%nat Printing).
  reflexivity.
Defined.

(** ** Polls empty the queue in order *)

Lemma pending_claimed js i j :
  list_find (λ j, status j = Pending) js = Some (i, j) →
  filter (λ j, status j = Pending) js =
    j :: filter (λ j, status j = Pending) (alter (with_status Printing) i js).
Proof.
  revert i. induction js as [|x js IH]; intros i; [done|].
  cbn [list_find]. case_decide as Hx.
  - intros [= <- <-]. cbn [alter list_alter].
    rewrite filter_cons_True by done. by rewrite filter_cons_False.
  - destruct (list_find _ js) as [[i' j']|] eqn:Hf; [|done].
    intros [= <- <-]. cbn [alter list_alter].
    rewrite !filter_cons_False by done. by apply IH.
Qed.

Lemma pending_none js :
  list_find (λ j, status j = Pending) js = None →
  filter (λ j, status j = Pending) js = [].
Proof.
  intros Hnone%list_find_None. induction Hnone as [|x js Hx _ IH]; [done|].
  by rewrite filter_cons_False.
Qed.

(** X5. A series of polls hands out the pending jobs oldest first, one job
    per poll, and answers "no job ready" once they are used up. *)
Theorem polls_drain_in_order rs s :
  Forall is_poll rs →
  replies rs s =
    ((job_ready <$> take (length rs) (pending_tokens s)) ++
     replicate (length rs - length (pending_tokens s)) no_job_ready)%list.
Proof.
  intros Hrs. revert s. induction Hrs as [|r rs Hr _ IH]; intros s; [done|].
  destruct r as [| |body| |]; try done.
  rewrite replies_cons. cbn [handle]. rewrite post_cloudprnt_unfold.
  unfold pending_tokens at 1 2.
  destruct (list_find _ (jobs s)) as [[i j]|] eqn:Hf; cbn [fst snd].
  - rewrite (pending_claimed _ _ _ Hf). cbn [fmap list_fmap length take].
    rewrite IH. reflexivity.
  - rewrite (pending_none _ Hf). cbn [fmap list_fmap length take].
    rewrite IH. unfold pending_tokens. rewrite (pending_none _ Hf).
    cbn [fmap list_fmap length take]. rewrite take_nil. simpl.
    by rewrite Nat.sub_0_r.
Qed.

Lemma polls_drain_in_order_witness :
  replies [PostCloudprnt JUndefined; PostCloudprnt (JObj []);
           PostCloudprnt JUndefined]
    {| nextJobId := 4;
       jobs := [Job 1 "job-1-5" "A" Done; Job 2 "job-2-6" "B" Pending;
                Job 3 "job-3-7" "C" Pending] |}
  = [job_ready "job-2-6"; job_ready "job-3-7"; no_job_ready].
Proof.
  apply (polls_drain_in_order
           [PostCloudprnt JUndefined; PostCloudprnt (JObj []);
            PostCloudprnt JUndefined]
           {| nextJobId := 4;
              jobs := [Job 1 "job-1-5" "A" Done; Job 2 "job-2-6" "B" Pending;
                       Job 3 "job-3-7" "C" Pending] |}).
  repeat constructor.
Defined.

(** ** What an acknowledgment records *)

Lemma outcome_done st : outcome st = Done ↔ st = JStr "0".
Proof.
  unfold outcome.
  destruct st as [| |b|n|t|l|o]; cbn [strict_eq_str]; try (split; discriminate).
  destruct (String.eqb_spec "0" t) as [Heq|Hne].
  - subst t. split; reflexivity.
  - split; [discriminate|]. intros [= Ht]. by destruct Hne.
Qed.

(** X6. Acknowledging the token of a stored job is answered 200 OK and
    sets that job, and no other, to done when the status parameter is the
    string "0" and to error for every other value; its id, token and
    content and the counter stay as they were. *)
Theorem ack_records_outcome rs i j st :
  jobs (after rs init) !! i = Some j →
  (delete_cloudprnt (JStr (token j)) st (after rs init)).1
    = RespText 200 None "OK" ∧
  jobs (delete_cloudprnt (JStr (token j)) st (after rs init)).2 !! i
    = Some {| id := id j; token := token j; content := content j;
              status := outcome st |} ∧
  (outcome st = Done ↔ st = JStr "0") ∧
  (outcome st = Done ∨ outcome st = Error) ∧
  (∀ k, k ≠ i →
     jobs (delete_cloudprnt (JStr (token j)) st (after rs init)).2 !! k
     = jobs (after rs init) !! k) ∧
  nextJobId (delete_cloudprnt (JStr (token j)) st (after rs init)).2
    = nextJobId (after rs init).
Proof.
  intros Hi. rewrite (ack_stored _ i j st (reachable_ok rs) Hi). cbn [fst snd].
  split_and!; [done| |apply outcome_done| | |done].
  - by rewrite lookup_mark, decide_True, Hi.
  - unfold outcome. destruct (strict_eq_str _ _); auto.
  - intros k Hk. by rewrite lookup_mark, decide_False.
Qed.

Lemma ack_records_outcome_witness :
  jobs (delete_cloudprnt (JStr "job-1-5") (JStr "0")
          {| nextJobId := 2;
             jobs := [Job 1 "job-1-5" "Order #1" Printing] |}).2 !! 0%nat
  = Some (Job 1 "job-1-5" "Order #1" Done).
Proof.
  apply (ack_records_outcome
           [PostApiOrder (order "Order #1") 5; PostCloudprnt (JObj [])]
           0%nat (Job 1 "job-1-5" "Order #1" Printing) (JStr "0")).
  reflexivity.
Defined.

(** ** What polls, fetches and acknowledgments leave alone *)

Lemma identity_mark k st s :
  identity <$> jobs (mark k st s) = identity <$> jobs s.
Proof.
  apply list_eq. intros i. rewrite !list_lookup_fmap, lookup_mark.
  case_decide; [|done]. by destruct (jobs s !! i).
Qed.

(** X7. Apart from an order that is accepted, no request adds or removes a
    job, touches the id, token or content of a job, or moves the counter:
    polls and acknowledgments change statuses only. *)
Theorem only_orders_add_jobs r s :
  accepts r = false →
  identity <$> jobs (handle r s).2 = identity <$> jobs s ∧
  nextJobId (handle r s).2 = nextJobId s.
Proof.
  intros Hr. split.
  - destruct r as [body now| |body|tok|tok st]; cbn [handle accepts] in *.
    + rewrite post_api_order_unfold. by destruct (order_text _).
    + done.
    + rewrite post_cloudprnt_unfold.
      destruct (list_find _ _) as [[i j]|]; [apply identity_mark|done].
    + rewrite get_cloudprnt_unfold. destruct (truthy tok); [|done].
      by destruct (find_by_token _ _) as [[i j]|].
    + rewrite delete_cloudprnt_unfold. destruct (truthy tok); [|done].
      destruct (find_by_token _ _) as [[i j]|]; [apply identity_mark|done].
  - rewrite handle_accepts_counter, Hr. lia.
Qed.

Lemma only_orders_add_jobs_witness :
  identity <$> jobs (handle (DeleteCloudprnt (JStr "job-1-5") (JStr "0"))
                       {| nextJobId := 2;
                          jobs := [Job 1 "job-1-5" "Order #1" Printing] |}).2
  = [(1, "job-1-5", "Order #1")] ∧
  nextJobId (handle (DeleteCloudprnt (JStr "job-1-5") (JStr "0"))
               {| nextJobId := 2;
                  jobs := [Job 1 "job-1-5" "Order #1" Printing] |}).2 = 2.
Proof.
  apply (only_orders_add_jobs
           (DeleteCloudprnt (JStr "job-1-5") (JStr "0"))
           {| nextJobId := 2; jobs := [Job 1 "job-1-5" "Order #1" Printing] |}).
  reflexivity.
Defined.

(** ** Acknowledging twice *)

Lemma find_by_token_alter tok st k js :
  fst <$> find_by_token tok (alter (with_status st) k js)
  = fst <$> find_by_token tok js.
Proof.
  unfold find_by_token. revert k.
  induction js as [|x js IH]; intros k; [done|].
  destruct k as [|k]; cbn [alter list_alter list_find].
  - change (token (with_status st x)) with (token x).
    case_decide; [done|]. by destruct (list_find _ js) as [[??]|].
  - case_decide; [done|]. specialize (IH k).
    destruct (list_find _ (alter _ k js)) as [[??]|],
             (list_find _ js) as [[??]|]; simpl in *; congruence.
Qed.

Lemma delete_cloudprnt_index tok st s :
  delete_cloudprnt tok st s =
    if truthy tok then
      match fst <$> find_by_token tok (jobs s) with
      | None => (job_not_found, s)
      | Some i => (RespText 200 None "OK", mark i (outcome st) s)
      end
    else (missing_job_token, s).
Proof.
  rewrite delete_cloudprnt_unfold. destruct (truthy tok); [|done].
  by destruct (find_by_token _ _) as [[i j]|].
Qed.

Lemma mark_mark i st1 st2 s : mark i st2 (mark i st1 s) = mark i st2 s.
Proof.
  unfold mark at 1 3. cbn [nextJobId]. f_equal.
  apply list_eq. intros k.
  rewrite !list_lookup_alter. case_decide as Hk.
  - rewrite lookup_mark, decide_True by done. by destruct (jobs s !! i).
  - by rewrite lookup_mark, decide_False.
Qed.

(** X8. Of two acknowledgments with the same token the second one decides:
    the answer and the store are those of the second acknowledgment served
    alone.  In particular repeating an acknowledgment changes nothing. *)
Theorem ack_last_wins tok st1 st2 s :
  delete_cloudprnt tok st2 (delete_cloudprnt tok st1 s).2
  = delete_cloudprnt tok st2 s.
Proof.
  rewrite (delete_cloudprnt_index tok st1 s).
  destruct (truthy tok) eqn:Htok; [|done].
  destruct (fst <$> find_by_token tok (jobs s)) as [i|] eqn:Hf; [|done].
  cbn [snd]. rewrite !delete_cloudprnt_index, Htok.
  unfold mark at 1. cbn [jobs]. rewrite find_by_token_alter, Hf.
  by rewrite mark_mark.
Qed.

(** ** An acknowledged job is out of the queue *)

(** X9. Once the token of a stored job has been acknowledged, with whatever
    status and even if the job was still pending, no later poll hands that
    job out. *)
Theorem acked_never_dispatched rs i j st rs' b :
  jobs (after rs init) !! i = Some j →
  replies rs' (delete_cloudprnt (JStr (token j)) st (after rs init)).2 !! b
  ≠ Some (job_ready (token j)).
Proof.
  intros Hi. rewrite (ack_stored _ i j st (reachable_ok rs) Hi). cbn [snd].
  change (token j) with (token (with_status (outcome st) j)).
  apply claimed_not_offered with (i := i).
  - apply store_ok_mark, reachable_ok.
  - by rewrite lookup_mark, decide_True, Hi.
  - unfold outcome. simpl. by destruct (strict_eq_str _ _).
Qed.

Lemma acked_never_dispatched_witness :
  replies [PostCloudprnt JUndefined]
    (delete_cloudprnt (JStr "job-1-5") (JStr "0")
       {| nextJobId := 2; jobs := [Job 1 "job-1-5" "Order #1" Pending] |}).2
    !! 0%nat
  ≠ Some (job_ready "job-1-5").
Proof.
  apply (acked_never_dispatched
           [PostApiOrder (order "Order #1") 5]
           0%nat (Job 1 "job-1-5" "Order #1" Pending) (JStr "0")
           [PostCloudprnt JUndefined] 0%nat).
  reflexivity.
Defined.

(** ** Where jobs come from *)

Lemma handle_origin r s i j :
  jobs (handle r s).2 !! i = Some j →
  (∃ j0, jobs s !! i = Some j0 ∧ identity j = identity j0) ∨
  (∃ body now,
     r = PostApiOrder body now ∧ body_text body = JStr (content j) ∧
     content j ≠ "" ∧
     (handle r s).1 = order_accepted (id j) (token j)).
Proof.
  assert (Hmark : ∀ k st, jobs (mark k st s) !! i = Some j →
            ∃ j0, jobs s !! i = Some j0 ∧ identity j = identity j0).
  { intros k st (j0 & H0 & Hid & Htok & Hc)%lookup_mark_Some.
    exists j0. split; [done|]. unfold identity. by rewrite Hid, Htok, Hc. }
  destruct r as [body now| |body|tok|tok st]; cbn [handle].
  - rewrite post_api_order_unfold, order_text_spec.
    destruct (body_text body) as [| | | |t| |] eqn:Hb; try by eauto.
    case_decide as Ht; [by eauto|]. cbn [fst snd enqueue jobs].
    intros [Hi|[_ Hi]]%lookup_app_Some; [by eauto|].
    apply list_lookup_singleton_Some in Hi as [_ <-]. right.
    exists body, now. by rewrite Hb.
  - by eauto.
  - rewrite post_cloudprnt_unfold.
    destruct (list_find _ _) as [[k jk]|]; cbn [snd]; eauto.
  - rewrite get_cloudprnt_unfold. destruct (truthy tok); [|by eauto].
    destruct (find_by_token _ _) as [[k jk]|]; by eauto.
  - rewrite delete_cloudprnt_unfold. destruct (truthy tok); [|by eauto].
    destruct (find_by_token _ _) as [[k jk]|]; cbn [snd]; eauto.
Qed.

Lemma after_origin rs s i j :
  jobs (after rs s) !! i = Some j →
  (∃ j0, jobs s !! i = Some j0 ∧ identity j = identity j0) ∨
  (∃ a body now,
     rs !! a = Some (PostApiOrder body now) ∧
     body_text body = JStr (content j) ∧ content j ≠ "" ∧
     replies rs s !! a = Some (order_accepted (id j) (token j))).
Proof.
  revert s. induction rs as [|r rs IH]; intros s Hi; [by eauto|].
  rewrite after_cons in Hi. rewrite replies_cons.
  destruct (IH _ Hi) as [(j1 & H1 & Hid)|(a & body & now & Ha & Hb & Hc & Hr)].
  - destruct (handle_origin _ _ _ _ H1)
      as [(j0 & H0 & Hid0)|(body & now & -> & Hb & Hc & Hr)].
    + left. exists j0. split; [done|]. congruence.
    + right. exists 0%nat, body, now.
      unfold identity in Hid. injection Hid as Hid Htok Hcon.
      rewrite Hid, Htok, Hcon. by split_and!; [done|..|simpl; f_equal].
  - right. by exists (S a), body, now.
Qed.

(** X10. A poll never invents a job: in every run of the server, a "job
    ready" answer carries a token that an earlier order of the same run was
    answered with. *)
Theorem dispatched_was_ordered rs b t :
  replies rs init !! b = Some (job_ready t) →
  ∃ a n, (a < b)%nat ∧ replies rs init !! a = Some (order_accepted n t).
Proof.
  intros Hb. destruct (reply_request _ _ _ _ Hb) as [r Hr].
  rewrite (reply_at _ _ _ _ Hr) in Hb. injection Hb as Hb.
  apply job_ready_inv in Hb as (i & j & Hi & _ & <- & _).
  destruct (after_origin _ _ _ _ Hi)
    as [(j0 & H0 & _)|(a & body & now & Ha & _ & _ & Hacc)]; [done|].
  exists a, (id j).
  assert (a < b)%nat.
  { apply lookup_lt_Some in Ha. rewrite length_take in Ha. lia. }
  split; [done|]. rewrite replies_take in Hacc.
  by rewrite lookup_take_lt in Hacc.
Qed.

Lemma dispatched_was_ordered_witness :
  ∃ a n, (a < 2)%nat ∧
    replies [PostCloudprnt JUndefined; PostApiOrder (order "Order #1") 5;
             PostCloudprnt JUndefined] init !! a
    = Some (order_accepted n "job-1-5").
Proof.
  apply (dispatched_was_ordered
           [PostCloudprnt JUndefined; PostApiOrder (order "Order #1") 5;
            PostCloudprnt JUndefined] 2%nat "job-1-5").
  reflexivity.
Defined.

(** X11. A fetch never invents a text: in every run of the server, the body
    of a 200 answer to a fetch is the non-empty [text] of an earlier order
    of the same run, and the fetch's token is the one that order was
    answered with. *)
Theorem fetched_was_ordered rs b tok ct c :
  rs !! b = Some (GetCloudprnt tok) →
  replies rs init !! b = Some (RespText 200 ct c) →
  ∃ a body now n t,
    (a < b)%nat ∧ rs !! a = Some (PostApiOrder body now) ∧
    body_text body = JStr c ∧ c ≠ "" ∧ tok = JStr t ∧
    replies rs init !! a = Some (order_accepted n t).
Proof.
  intros Hr Hb. rewrite (reply_at _ _ _ _ Hr) in Hb. injection Hb as Hb.
  cbn [handle] in Hb. rewrite get_cloudprnt_unfold in Hb.
  destruct (truthy tok); [|done].
  destruct (find_by_token _ _) as [[i j]|] eqn:Hf; [|done].
  injection Hb as _ <-.
  apply find_by_token_Some in Hf as [Hi ->].
  destruct (after_origin _ _ _ _ Hi)
    as [(j0 & H0 & _)|(a & body & now & Ha & Hbody & Hne & Hacc)]; [done|].
  exists a, body, now, (id j), (token j).
  assert (a < b)%nat.
  { apply lookup_lt_Some in Ha. rewrite length_take in Ha. lia. }
  rewrite replies_take in Hacc.
  rewrite lookup_take_lt in Hacc by done. rewrite lookup_take_lt in Ha by done.
  by split_and!.
Qed.

Lemma fetched_was_ordered_witness :
  ∃ a body now n t,
    (a < 1)%nat ∧
    [PostApiOrder (order "Order #1") 5; GetCloudprnt (JStr "job-1-5")] !! a
      = Some (PostApiOrder body now) ∧
    body_text body = JStr "Order #1" ∧ "Order #1" ≠ "" ∧
    JStr "job-1-5" = JStr t ∧
    replies [PostApiOrder (order "Order #1") 5; GetCloudprnt (JStr "job-1-5")]
      init !! a = Some (order_accepted n t).
Proof.
  apply (fetched_was_ordered
           [PostApiOrder (order "Order #1") 5; GetCloudprnt (JStr "job-1-5")]
           1%nat (JStr "job-1-5") (Some "text/plain; charset=utf-8")
           "Order #1").
  - reflexivity.
  - reflexivity.
Defined.

(** ** Tokens can be read back *)

Lemma append_cancel a x y : a +:+ x = a +:+ y → x = y.
Proof. induction a as [|c a IH]; simpl; [done|]. intros [= H]. auto. Qed.

Lemma show_int_neg p : show_int (Z.neg p) = String "-" (show_int (Z.pos p)).
Proof. reflexivity. Qed.

Lemma show_int_head n :
  0 ≤ n → ∃ c r, show_int n = String c r ∧ is_digit c = true.
Proof.
  intros Hn. pose proof (show_int_digits n Hn) as Hd.
  destruct (show_int n) as [|c r] eqn:Hs.
  - exfalso. destruct n as [|p|p]; [done| |lia].
    unfold show_int in Hs; simpl in Hs. unfold NilZero.string_of_uint in Hs.
    by destruct (Pos.to_uint p).
  - exists c, r. split; [done|]. simpl in Hd. by apply andb_prop in Hd as [? _].
Qed.

Lemma makeToken_id a b t1 t2 : makeToken a t1 = makeToken b t2 → a = b.
Proof.
  intros Heq.
  destruct (Z_lt_le_dec a 0) as [Ha|Ha], (Z_lt_le_dec b 0) as [Hb|Hb].
  - destruct a as [|pa|pa], b as [|pb|pb]; try lia.
    unfold makeToken in Heq. rewrite !show_int_neg in Heq.
    simpl in Heq. injection Heq as Heq.
    apply digits_delim in Heq; [|by apply show_int_digits..].
    apply show_int_inj in Heq. congruence.
  - exfalso. destruct a as [|pa|pa]; try lia.
    destruct (show_int_head b Hb) as (c & r & Hs & Hc).
    unfold makeToken in Heq. rewrite show_int_neg, Hs in Heq.
    simpl in Heq. injection Heq as <- _. done.
  - exfalso. destruct b as [|pb|pb]; try lia.
    destruct (show_int_head a Ha) as (c & r & Hs & Hc).
    unfold makeToken in Heq. rewrite show_int_neg, Hs in Heq.
    simpl in Heq. injection Heq as -> _. done.
  - by apply makeToken_inj in Heq.
Qed.

(** X12. A token determines both the id and the clock reading it was made
    from: [makeToken] gives different tokens for different ids, and for
    one id at different times. *)
Theorem makeToken_injective a b t1 t2 :
  makeToken a t1 = makeToken b t2 ↔ a = b ∧ t1 = t2.
Proof.
  split; [|by intros [-> ->]].
  intros Heq. pose proof (makeToken_id _ _ _ _ Heq) as ->.
  split; [done|]. unfold makeToken in Heq.
  do 3 apply append_cancel in Heq. by apply show_int_inj.
Qed.

(** ** The debug listing *)

Lemma status_name_inj st1 st2 : status_name st1 = status_name st2 → st1 = st2.
Proof. by destruct st1, st2. Qed.

Lemma job_json_inj j1 j2 : job_json j1 = job_json j2 → j1 = j2.
Proof.
  destruct j1 as [i1 t1 c1 s1], j2 as [i2 t2 c2 s2]. unfold job_json; simpl.
  intros [= -> -> -> Hs]. by apply status_name_inj in Hs as ->.
Qed.

Lemma listing_inj (js1 js2 : list job) :
  job_json <$> js1 = job_json <$> js2 → js1 = js2.
Proof.
  apply list_fmap_eq_inj. intros j1 j2. apply job_json_inj.
Qed.

(** X13. The debug listing is a faithful picture of the queue: asking for
    it changes nothing, it has one entry per job in queue order, and two
    stores give the same listing exactly when they hold the same jobs with
    the same ids, tokens, contents and statuses. *)
Theorem debug_listing_faithful s1 s2 :
  (get_api_debug_jobs s1).2 = s1 ∧
  (∃ entries, (get_api_debug_jobs s1).1 = RespJson 200 (JArr entries) ∧
              length entries = length (jobs s1)) ∧
  ((get_api_debug_jobs s1).1 = (get_api_debug_jobs s2).1 ↔ jobs s1 = jobs s2).
Proof.
  split_and!; [done| |].
  - exists (job_json <$> jobs s1). split; [done|]. apply length_fmap.
  - unfold get_api_debug_jobs, mbind, M_bind, get_jobs. cbn. split.
    + intros [= H]. by apply listing_inj.
    + by intros ->.
Qed.

(** ** Cross-origin requests *)

(** X14. The CORS check lets a request through exactly when it has no
    [Origin] header (or an empty one) or when its origin is, character for
    character, one of the four listed origins. *)
Theorem cors_allows origin :
  cors_origin origin = true ↔
  truthy origin = false ∨ ∃ u, origin = JStr u ∧ u ∈ ALLOWED_ORIGINS.
Proof.
  unfold cors_origin. destruct (truthy origin) eqn:Ht; cbn [negb].
  - destruct (existsb _ _) eqn:He.
    + split; [intros _|done]. right.
      apply existsb_exists in He as (u & Hu & Heq).
      exists u. split; [|by apply list_elem_of_In].
      destruct origin; try done. simpl in Heq.
      by apply String.eqb_eq in Heq as ->.
    + split; [done|]. intros [?|(u & -> & Hu)]; [done|].
      rewrite <- He. apply existsb_exists.
      exists u. split; [by apply list_elem_of_In|]. simpl. apply String.eqb_refl.
  - split; auto.
Qed.

(** ** Tokens that are not strings *)

(** X15. A [job_token] that the query parser delivers as an array or an
    object (a repeated or bracketed parameter) names no job in any store:
    fetch and acknowledgment answer 404 and change nothing. *)
Theorem composite_token_not_found tok st s :
  truthy tok = true → (∀ t, tok ≠ JStr t) →
  get_cloudprnt tok s = (RespText 404 None "Job not found", s) ∧
  delete_cloudprnt tok st s = (RespText 404 None "Job not found", s).
Proof.
  intros Ht Hns.
  assert (Hnone : find_by_token tok (jobs s) = None).
  { apply find_by_token_None. intros j _.
    destruct tok as [| | | |t| |]; try done. by destruct (Hns t). }
  by rewrite get_cloudprnt_unfold, delete_cloudprnt_unfold, Ht, Hnone.
Qed.

Lemma composite_token_not_found_witness :
  get_cloudprnt (JArr [JStr "job-1-5"; JStr "job-1-5"])
    {| nextJobId := 2; jobs := [Job 1 "job-1-5" "Order #1" Printing] |}
  = (job_not_found,
     {| nextJobId := 2; jobs := [Job 1 "job-1-5" "Order #1" Printing] |}) ∧
  delete_cloudprnt (JArr [JStr "job-1-5"; JStr "job-1-5"]) (JStr "0")
    {| nextJobId := 2; jobs := [Job 1 "job-1-5" "Order #1" Printing] |}
  = (job_not_found,
     {| nextJobId := 2; jobs := [Job 1 "job-1-5" "Order #1" Printing] |}).
Proof.
  apply (composite_token_not_found
           (JArr [JStr "job-1-5"; JStr "job-1-5"]) (JStr "0")
           {| nextJobId := 2; jobs := [Job 1 "job-1-5" "Order #1" Printing] |}).
  - reflexivity.
  - intros t Ht. discriminate Ht.
Defined.

(** ** One job at a time *)

(** X16. A request changes the status of at most one queue position: there
    is a position such that the status at every other position is the same
    after the request as before it. *)
Theorem one_status_per_request r s :
  ∃ i, ∀ k, k ≠ i → status_at k (handle r s).2 = status_at k s.
Proof.
  destruct (handle_transition r s) as [|i _|i st _|t now].
  - by exists 0%nat.
  - exists i. intros k Hk. by rewrite status_at_mark, decide_False.
  - exists i. intros k Hk. by rewrite status_at_mark, decide_False.
  - exists (length (jobs s)). intros k Hk. unfold status_at; simpl.
    destruct (decide (k < length (jobs s))%nat) as [Hlt|Hge].
    + by rewrite lookup_app_l.
    + rewrite !lookup_ge_None_2; [done|lia|].
      rewrite length_app; simpl. lia.
Qed.

(** ** A whole round, from any idle queue *)

Lemma store_ok_enqueued s now t st :
  store_ok s →
  store_ok {| nextJobId := nextJobId s + 1;
              jobs := jobs s ++ [ {| id := nextJobId s;
                                     token := makeToken (nextJobId s) now;
                                     content := t; status := st |} ] |}.
Proof.
  intros [Hn Hj]. split; simpl.
  - rewrite length_app; simpl. lia.
  - intros i j [Hi|[Hlen Hi]]%lookup_app_Some; [by eauto|].
    apply list_lookup_singleton_Some in Hi as [Hi <-]. simpl.
    split; [lia|by eauto].
Qed.

(** X17. Whenever no job is pending, an order with a non-empty text
    followed by a poll, a fetch with the token, an acknowledgment with
    status "0" and another poll is answered: accepted with a fresh token,
    "job ready" with that token, the text, OK, "no job ready"; and the job
    ends up done. *)
Theorem full_round pre body now t b1 b2 :
  body_text body = JStr t → t ≠ "" →
  Forall (λ j, status j ≠ Pending) (jobs (after pre init)) →
  let s := after pre init in
  let tok := makeToken (nextJobId s) now in
  replies [PostApiOrder body now; PostCloudprnt b1; GetCloudprnt (JStr tok);
           DeleteCloudprnt (JStr tok) (JStr "0"); PostCloudprnt b2] s
  = [order_accepted (nextJobId s) tok; job_ready tok;
     RespText 200 (Some "text/plain; charset=utf-8") t;
     RespText 200 None "OK"; no_job_ready] ∧
  after [PostApiOrder body now; PostCloudprnt b1; GetCloudprnt (JStr tok);
         DeleteCloudprnt (JStr tok) (JStr "0"); PostCloudprnt b2] s
  = {| nextJobId := nextJobId s + 1;
       jobs := jobs s ++ [ {| id := nextJobId s; token := tok;
                              content := t; status := Done |} ] |}.
Proof.
  intros Hbody Ht Hidle s tok.
  pose proof (reachable_ok pre) as Hok. fold s in Hok, Hidle.
  rewrite !replies_cons, !after_cons. change (after [] ?x) with x.
  cbn [handle].
  (* the order *)
  rewrite post_api_order_unfold, order_text_spec, Hbody, decide_False by done.
  cbn [fst snd]. fold tok. unfold enqueue.
  (* the poll *)
  rewrite poll_skip by done. cbn [list_find]. rewrite decide_True by done.
  cbn [fst snd token alter list_alter]. unfold with_status.
  cbn [id token content].
  (* the fetch *)
  set (j1 := {| id := nextJobId s; token := tok; content := t;
                status := Printing |}).
  set (s1 := {| nextJobId := nextJobId s + 1; jobs := jobs s ++ [j1] |}).
  assert (Hok1 : store_ok s1) by by apply store_ok_enqueued.
  assert (Hj1 : jobs s1 !! length (jobs s) = Some j1)
    by by apply list_lookup_middle.
  pose proof (fetch_stored s1 _ j1 Hok1 Hj1) as Hfetch.
  change (token j1) with tok in Hfetch. change (content j1) with t in Hfetch.
  rewrite Hfetch. cbn [fst snd].
  (* the acknowledgment *)
  pose proof (ack_stored s1 _ j1 (JStr "0") Hok1 Hj1) as Hack.
  change (token j1) with tok in Hack.
  rewrite Hack. cbn [fst snd].
  unfold mark, s1. cbn [nextJobId jobs].
  assert (Halt : alter (with_status (outcome (JStr "0"))) (length (jobs s))
                   (jobs s ++ [j1])%list
                 = (jobs s ++ [ {| id := nextJobId s; token := tok;
                                   content := t; status := Done |} ])%list).
  { replace (length (jobs s)) with (length (jobs s) + 0)%nat by lia.
    by rewrite alter_app_r. }
  rewrite !Halt.
  (* the last poll *)
  rewrite !poll_skip by done. cbn [list_find].
  rewrite !decide_False by done. done.
Qed.

Lemma full_round_witness :
  replies [PostApiOrder (order "Order #1") 5; PostCloudprnt JUndefined;
           GetCloudprnt (JStr "job-1-5");
           DeleteCloudprnt (JStr "job-1-5") (JStr "0");
           PostCloudprnt JUndefined] init
  = [order_accepted 1 "job-1-5"; job_ready "job-1-5";
     RespText 200 (Some "text/plain; charset=utf-8") "Order #1";
     RespText 200 None "OK"; no_job_ready] ∧
  after [PostApiOrder (order "Order #1") 5; PostCloudprnt JUndefined;
         GetCloudprnt (JStr "job-1-5");
         DeleteCloudprnt (JStr "job-1-5") (JStr "0");
         PostCloudprnt JUndefined] init
  = {| nextJobId := 2; jobs := [Job 1 "job-1-5" "Order #1" Done] |}.
Proof.
  apply (full_round [] (order "Order #1") 5 "Order #1" JUndefined JUndefined).
  - reflexivity.
  - discriminate.
  - constructor.
Defined.

(** X18. The token an order was answered with can be acknowledged at any
    later time, whatever was served in between: the acknowledgment is
    answered 200 OK and records its outcome on the job of that order. *)
Theorem issued_token_acknowledged pre mid body now t st :
  body_text body = JStr t → t ≠ "" →
  let s1 := after pre init in
  let tok := makeToken (nextJobId s1) now in
  let s3 := after (pre ++ PostApiOrder body now :: mid) init in
  (handle (PostApiOrder body now) s1).1 = order_accepted (nextJobId s1) tok ∧
  delete_cloudprnt (JStr tok) st s3 =
    (RespText 200 None "OK", mark (length (jobs s1)) (outcome st) s3) ∧
  jobs (mark (length (jobs s1)) (outcome st) s3) !! length (jobs s1) =
    Some {| id := nextJobId s1; token := tok; content := t;
            status := outcome st |}.
Proof.
  intros Hbody Ht s1 tok s3.
  assert (Hacc : handle (PostApiOrder body now) s1 =
            (order_accepted (nextJobId s1) tok,
             enqueue {| id := nextJobId s1; token := tok;
                        content := t; status := Pending |} s1)).
  { cbn [handle]. rewrite post_api_order_unfold, order_text_spec, Hbody.
    by rewrite decide_False. }
  split; [by rewrite Hacc|].
  assert (Hnew : jobs (handle (PostApiOrder body now) s1).2
                   !! length (jobs s1)
                 = Some {| id := nextJobId s1; token := tok;
                           content := t; status := Pending |}).
  { rewrite Hacc. simpl. by apply list_lookup_middle. }
  destruct (after_lookup mid _ _ _ Hnew) as (j' & Hj' & Hid & Htok & Hc).
  assert (Hs3 : s3 = after mid (handle (PostApiOrder body now) s1).2).
  { subst s3 s1. by rewrite after_app, after_cons. }
  rewrite <- Hs3 in Hj'. simpl in Hid, Htok, Hc. split.
  - rewrite <- Htok. apply ack_stored; [apply reachable_ok|done].
  - rewrite lookup_mark, decide_True, Hj' by done. simpl.
    unfold with_status. by rewrite Hid, Htok, Hc.
Qed.

Lemma issued_token_acknowledged_witness :
  delete_cloudprnt (JStr "job-1-5") (JStr "0")
    {| nextJobId := 2; jobs := [Job 1 "job-1-5" "Order #1" Printing] |}
  = (RespText 200 None "OK",
     {| nextJobId := 2; jobs := [Job 1 "job-1-5" "Order #1" Done] |}).
Proof.
  apply (issued_token_acknowledged
           [] [PostCloudprnt JUndefined] (order "Order #1") 5 "Order #1"
           (JStr "0")).
  - reflexivity.
  - discriminate.
Defined.
